(** * lssh: the connection core of package [ssh]

    A shallow embedding of the proxy-chain resolver [GetProxyList], of the
    connection and session life cycle of [Connect] ([CheckClientAlive],
    [CreateSession], [CreateClient], [createClientOverProxy]), of the output
    pump [RunCmdWithOutput], of the interactive terminal [ConTerm] and of the
    per-host task [cmdRun], together with the properties the specification
    states about them. *)

From Stdlib Require Import Strings.Byte Strings.Ascii Strings.String.
From stdpp Require Import gmap strings list fin_maps relations.

Local Open Scope string_scope.
Local Open Scope nat_scope.
Local Open Scope list_scope.

(** ** Go values *)

(** A Go [error] is observed through its [Error()] method only; [errors_New]
    is [errors.New] (and what [fmt.Errorf] returns without [%w]). The [nil]
    error is [None] of [option error]. *)
Record error := errors_New { Error : string }.

#[global] Instance error_eq_dec : EqDecision error.
Proof. solve_decision. Defined.

(** ** Package conf

    The type declarations of package [conf] are not part of the sources at
    hand; the records below carry the fields that connect.go reads, with the
    names it uses. A Go map lookup of a missing key yields the zero value. *)
Module conf.

Module ServerConfig.
Record t := mk {
  Addr : string;
  Port : string;
  User : string;
  Proxy : string;
  ProxyType : string;
  ProxyCommand : string;
  SSHAgentUse : bool;
  AgentAuth : bool;
  X11 : bool
}.
Definition zero : t := mk "" "" "" "" "" "" false false false.
End ServerConfig.

Module ProxyConfig.
Record t := mk {
  Addr : string;
  Port : string;
  User : string;
  Pass : string
}.
Definition zero : t := mk "" "" "" "".
End ProxyConfig.

Record Config := mkConfig {
  Server : gmap string ServerConfig.t;
  Proxy : gmap string ProxyConfig.t
}.

(** [config.Server[name]] and [config.Proxy[name]], one-value form. *)
Definition Server_at (config : Config) (name : string) : ServerConfig.t :=
  default ServerConfig.zero (Server config !! name).
Definition Proxy_at (config : Config) (name : string) : ProxyConfig.t :=
  default ProxyConfig.zero (Proxy config !! name).

End conf.

(** ** GetProxyList *)

(** [type Proxy struct { Name string; Type string }] *)
Record Proxy := mkProxy { Name : string; Type_ : string }.

(** The three tunnel kinds of the two [switch] statements
    ([case "http", "https", "socks5"]). *)
Definition isTunnel (t : string) : bool :=
  (t =? "http")%string || (t =? "https")%string || (t =? "socks5")%string.

(** The variables of [GetProxyList] that live across iterations of its
    [for] loop. [preProxy] and [preProxyType] are assigned afresh by both
    arms of the first [switch] in every iteration. *)
Record walk := mkWalk {
  targetServer : string;
  targetType : string;
  proxyList : list string;
  proxyType : gmap string string
}.

(** How one iteration of the loop ends. *)
Inductive flow :=
| Next (st : walk)          (* falls through to the next iteration *)
| Break                     (* [break]: leaves the loop *)
| Failed (err : error).       (* [return nil, nil, err] *)

Definition loop_body (config : conf.Config) (st : walk) : flow :=
  let '(isOk, preProxy, preProxyType) :=
    if isTunnel (targetType st) then
      (bool_decide (is_Some (conf.Proxy config !! targetServer st)), "", "")
    else
      let preProxyConf := conf.Server_at config (targetServer st) in
      (bool_decide (is_Some (conf.Server config !! targetServer st)),
       conf.ServerConfig.Proxy preProxyConf,
       conf.ServerConfig.ProxyType preProxyConf) in
  (* not use pre proxy *)
  if (preProxy =? "")%string then Break
  else if negb isOk then
    Failed (errors_New ("Not Found proxy : " ++ targetServer st)%string)
  else
    (* set proxy info *)
    let proxy :=
      mkProxy preProxy (if isTunnel preProxyType then preProxyType else "ssh") in
    Next {| proxyList := proxyList st ++ [Name proxy];
            proxyType := <[Name proxy := Type_ proxy]> (proxyType st);
            targetServer := Name proxy;
            targetType := Type_ proxy |}.

(** The [for] loop has no bound of its own: [fuel] counts the iterations
    allowed, and [None] says that the loop is still running after [fuel]
    of them. [Some (inl st)] is the state at [break], [Some (inr err)] the
    early [return]. *)
Fixpoint hop_walk (fuel : nat) (config : conf.Config) (st : walk)
  : option (walk + error) :=
  match fuel with
  | O => None
  | S fuel' =>
      match loop_body config st with
      | Next st' => hop_walk fuel' config st'
      | Break => Some (inl st)
      | Failed err => Some (inr err)
      end
  end.

(** [proxyList[i], proxyList[j] = proxyList[j], proxyList[i]]; both indices
    are in range whenever the loop below performs the swap. *)
Definition swap (l : list string) (i j : nat) : list string :=
  match l !! i, l !! j with
  | Some x, Some y => <[j := x]> (<[i := y]> l)
  | _, _ => l
  end.

(** [for i, j := 0, len(proxyList)-1; i < j; i, j = i+1, j-1 { swap }].
    The loop runs at most [len/2] times; [n] bounds that count. *)
Fixpoint reverse_loop (n i j : nat) (l : list string) : list string :=
  match n with
  | O => l
  | S n' => if decide (i < j)
            then reverse_loop n' (i + 1) (j - 1) (swap l i j)
            else l
  end.

Definition reverse_slice (l : list string) : list string :=
  reverse_loop (length l) 0 (length l - 1) l.

(** The result triple [(proxyList, proxyType, err)]. A [nil] slice is the
    empty list and a [nil] map the empty map (they read alike in Go). *)
Definition GetProxyList (fuel : nat) (server : string) (config : conf.Config)
  : option (list string * gmap string string * option error) :=
  match hop_walk fuel config (mkWalk server "" [] ∅) with
  | None => None
  | Some (inr err) => Some ([], ∅, Some err)
  | Some (inl st) => Some (reverse_slice (proxyList st), proxyType st, None)
  end.

(** The kind given to a hop whose referring entry declares [declared] as
    its proxy type (the second [switch]). *)
Definition kind_of (declared : string) : string :=
  if isTunnel declared then declared else "ssh".

(** The proxy-reference graph of a configuration: server entry [a] names
    [b] as its proxy. *)
Definition refers (config : conf.Config) (a b : string) : Prop :=
  ∃ sc, conf.Server config !! a = Some sc
        ∧ conf.ServerConfig.Proxy sc = b ∧ b ≠ "".

(** No name reachable from [server] lies on a cycle of references. *)
Definition acyclic_from (config : conf.Config) (server : string) : Prop :=
  ∀ x, rtc (refers config) server x → ¬ tc (refers config) x x.

(** In the walk from [server] that produced the hop list [l] (dial order),
    [n] is the hop at distance [i] from the target and [r] the entry that
    names it as its proxy: the target for [i = 0], the previous hop
    otherwise. *)
Definition hop_at (server : string) (l : list string) (i : nat)
    (r n : string) : Prop :=
  (server :: reverse l) !! i = Some r ∧ reverse l !! i = Some n.

(** The four kinds of a hop. *)
Definition hop_kinds : list string := ["ssh"; "http"; "https"; "socks5"].

(** What holds of the loop variables at the head of every iteration of the
    walk from [server]: the map is defined on the names collected so far,
    assigns kinds only, the last name collected is the current target, and
    a name that is not collected again later has the kind its referring
    entry declares. *)
Definition walk_inv (server : string) (config : conf.Config) (st : walk) : Prop :=
  dom (proxyType st) = list_to_set (proxyList st)
  ∧ (∀ n k, proxyType st !! n = Some k → k ∈ hop_kinds)
  ∧ last (server :: proxyList st) = Some (targetServer st)
  ∧ (∀ i r n,
       (server :: proxyList st) !! i = Some r →
       proxyList st !! i = Some n →
       (∀ j, i < j → proxyList st !! j ≠ Some n) →
       proxyType st !! n
       = Some (kind_of (conf.ServerConfig.ProxyType (conf.Server_at config r)))).

(** ** The world outside connect.go

    Handles of golang.org/x/crypto/ssh, golang.org/x/net/proxy and
    golang.org/x/crypto/ssh/terminal. A Go pointer or interface value is an
    [option] of a handle, [None] being [nil]. *)
Module xssh.
Inductive Client := ClientId (n : nat).
Inductive Session := SessionId (n : nat).
Inductive AuthMethod := AuthId (n : nat).
(** [ssh.ClientConfig]; [HostKeyCallback] is always
    [ssh.InsecureIgnoreHostKey()], [Timeout] is in seconds. *)
Record ClientConfig := mkClientConfig {
  User : string;
  Auth : list AuthMethod;
  Timeout : nat
}.
End xssh.

Inductive Dialer := DialerId (n : nat).
Inductive TermState := TermStateId (n : nat).
Inductive Writer := WriterId (n : nat).

(** [type Connect struct]: the fields that the modelled methods read or
    write. The agent fields are only touched by [CreateSshAgent] and
    [createSshAuth], which are not part of the sources at hand, and live in
    the world. *)
Record Connect := mkConnect {
  Server : string;
  Conf : conf.Config;
  Client : option xssh.Client;
  IsTerm : bool;
  IsParallel : bool;
  IsLocalRc : bool;
  LocalRcData : string;
  LocalRcDecodeCmd : string;
  X11 : bool
}.

Definition set_Client (client : option xssh.Client) (c : Connect) : Connect :=
  mkConnect (Server c) (Conf c) client (IsTerm c) (IsParallel c)
            (IsLocalRc c) (LocalRcData c) (LocalRcDecodeCmd c) (X11 c).

Definition set_X11 (x11 : bool) (c : Connect) : Connect :=
  mkConnect (Server c) (Conf c) (Client c) (IsTerm c) (IsParallel c)
            (IsLocalRc c) (LocalRcData c) (LocalRcDecodeCmd c) x11.

(** [type Run struct], as far as [cmdRun] and [cmd] read it. *)
Record Run := mkRun {
  ServerList : list string;
  Run_IsParallel : bool;
  IsX11 : bool;
  ExecCmd : list string;
  StdinData : list byte
}.

(** What the modelled code does to the outside, in program order: calls
    that leave the modelled functions, channel operations, and the entry
    of [CreateClient]. *)
Inductive Event :=
| EvCreateClient
| EvCreateSshAgent
| EvCreateSshAuth (server : string)
| EvDial (network addr : string) (sshConf : option xssh.ClientConfig)
| EvProxyDialerHttp (proxyConf : conf.ProxyConfig.t)
| EvProxyDialerSocks5 (proxyConf : conf.ProxyConfig.t)
| EvViaProxy (serverConf : conf.ServerConfig.t)
             (sshConf : option xssh.ClientConfig)
             (proxyClient : option xssh.Client) (proxyDialer : option Dialer)
| EvSendRequest (client : xssh.Client) (name : string) (wantReply : bool)
| EvNewSession (client : xssh.Client)
| EvMakeRaw (fd : nat)
| EvRestore (fd : nat) (state : option TermState)
| EvGetSize (fd : nat)
| EvGetenv (key : string)
| EvRequestPty (session : xssh.Session) (term : string) (h w : nat)
| EvShell (session : xssh.Session)
| EvStart (session : xssh.Session) (cmd : string)
| EvWait (session : xssh.Session)
| EvSignalNotify (sig : nat)
| EvGo (what : string)
| EvStderr (server : string) (err : error)
| EvCloseOutputChan
| EvX11Forwarder (session : xssh.Session)
| EvSetStdin (session : xssh.Session) (data : list byte)
| EvStdinPipe (session : xssh.Session)
| EvSendInputWriter (writer : option Writer)
| EvRunCmdWithOutput (session : xssh.Session) (command : list string).

(** The functions that the modelled code calls and does not define: library
    calls, and the helpers [CreateSshAgent], [createSshAuth],
    [createProxyDialerHttp], [createProxyDialerSocks5],
    [createClientViaProxy] and [X11Forwarder] of this package, whose files
    are not among the sources. Each may answer anything, in any state [W] of
    the world; results are Go result tuples, so a value and an error can both
    be present or absent. *)
Record Env (W : Type) := mkEnv {
  CreateSshAgent : W → option error * W;
  createSshAuth : string → W → list xssh.AuthMethod * option error * W;
  ssh_Dial : string → string → option xssh.ClientConfig →
             W → option xssh.Client * option error * W;
  createProxyDialerHttp :
    conf.ProxyConfig.t → W → option Dialer * option error * W;
  createProxyDialerSocks5 :
    conf.ProxyConfig.t → W → option Dialer * option error * W;
  createClientViaProxy :
    conf.ServerConfig.t → option xssh.ClientConfig →
    option xssh.Client → option Dialer →
    W → option xssh.Client * option error * W;
  Client_SendRequest : xssh.Client → string → bool → W → option error * W;
  Client_NewSession :
    xssh.Client → W → option xssh.Session * option error * W;
  os_Stdin_Fd : nat;
  os_Stdout_Fd : nat;
  runtime_GOOS : string;
  terminal_MakeRaw : nat → W → option TermState * option error * W;
  terminal_Restore : nat → option TermState → W → option error * W;
  terminal_GetSize : nat → W → nat * nat * option error * W;
  os_Getenv : string → W → string * W;
  Session_RequestPty :
    xssh.Session → string → nat → nat → W → option error * W;
  Session_Shell : xssh.Session → W → option error * W;
  Session_Start : xssh.Session → string → W → option error * W;
  Session_Wait : xssh.Session → W → option error * W;
  Session_StdinPipe : xssh.Session → W → option Writer * option error * W;
  Connect_X11Forwarder : xssh.Session → W → unit * W
}.

Arguments CreateSshAgent {W}.
Arguments createSshAuth {W}.
Arguments ssh_Dial {W}.
Arguments createProxyDialerHttp {W}.
Arguments createProxyDialerSocks5 {W}.
Arguments createClientViaProxy {W}.
Arguments Client_SendRequest {W}.
Arguments Client_NewSession {W}.
Arguments os_Stdin_Fd {W}.
Arguments os_Stdout_Fd {W}.
Arguments runtime_GOOS {W}.
Arguments terminal_MakeRaw {W}.
Arguments terminal_Restore {W}.
Arguments terminal_GetSize {W}.
Arguments os_Getenv {W}.
Arguments Session_RequestPty {W}.
Arguments Session_Shell {W}.
Arguments Session_Start {W}.
Arguments Session_Wait {W}.
Arguments Session_StdinPipe {W}.
Arguments Connect_X11Forwarder {W}.

(** ** A monad for the methods of [Connect]

    A method runs on the receiver [self], the world and the trace of events
    so far. It returns, panics (a nil dereference) or is still running when
    the fuel of a loop is spent. *)
Record St (W : Type) := mkSt {
  self : Connect;
  world : W;
  trace : list Event
}.
Arguments mkSt {W}.
Arguments self {W}.
Arguments world {W}.
Arguments trace {W}.

Inductive outcome (W A : Type) :=
| Returns (a : A) (s : St W)
| Panics (s : St W)
| Diverges.
Arguments Returns {W A}.
Arguments Panics {W A}.
Arguments Diverges {W A}.

Definition M (W A : Type) : Type := St W → outcome W A.

Definition ret {W A} (a : A) : M W A := fun s => Returns a s.

Definition bind {W A B} (m : M W A) (k : A → M W B) : M W B :=
  fun s => match m s with
           | Returns a s' => k a s'
           | Panics s' => Panics s'
           | Diverges => Diverges
           end.

Notation "'let*' x ':=' m 'in' k" := (bind m (fun x => k))
  (at level 10, x pattern, m at level 100, k at level 200,
   format "'[v' 'let*'  x  ':='  m  'in' '/' k ']'").

Definition panic {W A} : M W A := fun s => Panics s.
Definition diverge {W A} : M W A := fun _ => Diverges.
Definition get_self {W} : M W Connect := fun s => Returns (self s) s.
Definition modify_self {W} (f : Connect → Connect) : M W unit :=
  fun s => Returns tt (mkSt (f (self s)) (world s) (trace s)).
Definition emit {W} (ev : Event) : M W unit :=
  fun s => Returns tt (mkSt (self s) (world s) (trace s ++ [ev])).

(** A call that leaves the modelled code: the event is recorded and the
    world answers. *)
Definition ext {W A} (ev : Event) (op : W → A * W) : M W A :=
  fun s => let '(a, w) := op (world s) in
           Returns a (mkSt (self s) w (trace s ++ [ev])).

(** [defer d] followed by the rest of the function body: [d] runs when the
    body returns and also when it panics. *)
Definition with_defer {W A} (d : M W unit) (body : M W A) : M W A :=
  fun s => match body s with
           | Returns a s' =>
               match d s' with
               | Returns _ s'' => Returns a s''
               | Panics s'' => Panics s''
               | Diverges => Diverges
               end
           | Panics s' =>
               match d s' with
               | Returns _ s'' | Panics s'' => Panics s''
               | Diverges => Diverges
               end
           | Diverges => Diverges
           end.

(** [x != nil] for an error, a pointer or an interface value. *)
Definition is_nil {A} (x : option A) : bool :=
  match x with None => true | Some _ => false end.

(** Dereferencing a pointer: a nil one panics. *)
Definition deref {W A} (p : option A) : M W A :=
  match p with Some a => ret a | None => panic end.

(** [net.JoinHostPort]: a host with a colon or a percent sign is put in
    square brackets. *)
Fixpoint has_colon_or_percent (host : string) : bool :=
  match host with
  | EmptyString => false
  | String a rest =>
      Ascii.eqb a ":"%char || Ascii.eqb a "%"%char || has_colon_or_percent rest
  end.

Definition net_JoinHostPort (host port : string) : string :=
  (if has_colon_or_percent host then "[" ++ host ++ "]:" ++ port
   else host ++ ":" ++ port)%string.

Definition with_Port (port : string) (sc : conf.ServerConfig.t)
  : conf.ServerConfig.t :=
  conf.ServerConfig.mk
    (conf.ServerConfig.Addr sc) port (conf.ServerConfig.User sc)
    (conf.ServerConfig.Proxy sc) (conf.ServerConfig.ProxyType sc)
    (conf.ServerConfig.ProxyCommand sc) (conf.ServerConfig.SSHAgentUse sc)
    (conf.ServerConfig.AgentAuth sc) (conf.ServerConfig.X11 sc).

(** The variables of [createClientOverProxy] that its [range] loop
    assigns: [proxyClient], [proxyDialer] and the result parameter [err]. *)
Record hopvars := mkHopvars {
  proxyClient : option xssh.Client;
  proxyDialer : option Dialer;
  err_result : option error
}.

Section Methods.
Context {W : Type} (env : Env W).

(** *** CheckClientAlive *)
Definition CheckClientAlive : M W (option error) :=
  let* c := get_self in
  let* client := deref (Client c) in
  let* err := ext (EvSendRequest client "keepalive@lssh.com" true)
                  (Client_SendRequest env client "keepalive@lssh.com" true) in
  match err with
  | None => ret None
  | Some e => if (Error e =? "request failed")%string then ret None
              else ret err
  end.

(** *** createClientConfig *)
Definition createClientConfig (server : string)
  : M W (option xssh.ClientConfig * option error) :=
  let* c := get_self in
  let conf_ := conf.Server_at (Conf c) server in
  let* (auth, err) := ext (EvCreateSshAuth server) (createSshAuth env server) in
  if negb (is_nil err) && (length auth =? 0)%nat then ret (None, err)
  else
    ret (Some (xssh.mkClientConfig (conf.ServerConfig.User conf_) auth 30),
         err).

(** *** createClientOverProxy

    One iteration of [for _, proxy := range proxyList] and the iterations
    after it. [inr e] is a [return e] from inside the loop. In the
    [default] arm, [proxySshConf, err := ...] declares an [err] of the
    arm's own block: the assignment from [createClientViaProxy] goes to
    that variable, and the test after the [switch] reads the [err] of the
    function. *)
Fixpoint range_proxyList (proxyList : list string)
    (proxyType : gmap string string) (v : hopvars)
  : M W (hopvars + option error) :=
  match proxyList with
  | [] => ret (inl v)
  | proxy :: rest =>
      let* c := get_self in
      let kind := default "" (proxyType !! proxy) in
      let* r :=
        if ((kind =? "http") || (kind =? "https"))%string then
          let proxyConf := conf.Proxy_at (Conf c) proxy in
          let* (dialer, err) :=
            ext (EvProxyDialerHttp proxyConf)
                (createProxyDialerHttp env proxyConf) in
          ret (inl (mkHopvars (proxyClient v) dialer err))
        else if (kind =? "socks5")%string then
          let proxyConf := conf.Proxy_at (Conf c) proxy in
          let* (dialer, err) :=
            ext (EvProxyDialerSocks5 proxyConf)
                (createProxyDialerSocks5 env proxyConf) in
          ret (inl (mkHopvars (proxyClient v) dialer err))
        else
          let proxyConf := conf.Server_at (Conf c) proxy in
          let* (proxySshConf, err) := createClientConfig proxy in
          match err with
          | Some e => ret (inr (Some e))
          | None =>
              let* (client, err) :=
                ext (EvViaProxy proxyConf proxySshConf
                                (proxyClient v) (proxyDialer v))
                    (createClientViaProxy env proxyConf proxySshConf
                                          (proxyClient v) (proxyDialer v)) in
              ret (inl (mkHopvars client (proxyDialer v) (err_result v)))
          end in
      match r with
      | inr e => ret (inr e)
      | inl v' =>
          match err_result v' with
          | Some e => ret (inr (Some e))
          | None => range_proxyList rest proxyType v'
          end
      end
  end.

Definition createClientOverProxy (fuel : nat)
    (serverConf : conf.ServerConfig.t) (sshConf : option xssh.ClientConfig)
  : M W (option error) :=
  let* c := get_self in
  (* get proxy slice *)
  match GetProxyList fuel (Server c) (Conf c) with
  | None => diverge
  | Some (proxyList, proxyType, err) =>
      match err with
      | Some e => ret (Some e)
      | None =>
          let* r := range_proxyList proxyList proxyType
                                    (mkHopvars None None err) in
          match r with
          | inr e => ret e
          | inl v =>
              let* (client, err) :=
                ext (EvViaProxy serverConf sshConf
                                (proxyClient v) (proxyDialer v))
                    (createClientViaProxy env serverConf sshConf
                                          (proxyClient v) (proxyDialer v)) in
              match err with
              | Some e => ret (Some e)
              | None =>
                  (* set c.client *)
                  let* _ := modify_self (set_Client client) in
                  ret err
              end
          end
      end
  end.

(** *** CreateClient *)
Definition CreateClient (fuel : nat) : M W (option error) :=
  let* _ := emit EvCreateClient in
  let* c := get_self in
  let serverConf := conf.Server_at (Conf c) (Server c) in
  (* if use ssh-agent *)
  let* agentErr :=
    if conf.ServerConfig.SSHAgentUse serverConf
       || conf.ServerConfig.AgentAuth serverConf
    then ext EvCreateSshAgent (CreateSshAgent env)
    else ret None in
  match agentErr with
  | Some e => ret (Some e)
  | None =>
      let* (sshConf, err) := createClientConfig (Server c) in
      match err with
      | Some e => ret (Some e)
      | None =>
          (* set default port 22 *)
          let serverConf :=
            if (conf.ServerConfig.Port serverConf =? "")%string
            then with_Port "22" serverConf else serverConf in
          if ((conf.ServerConfig.Proxy serverConf =? "")
              && (conf.ServerConfig.ProxyCommand serverConf =? ""))%string
          then
            (* not use proxy *)
            let addr := net_JoinHostPort (conf.ServerConfig.Addr serverConf)
                                         (conf.ServerConfig.Port serverConf) in
            let* (client, dialErr) :=
              ext (EvDial "tcp" addr sshConf) (ssh_Dial env "tcp" addr sshConf) in
            match dialErr with
            | Some e => ret (Some e)
            | None =>
                let* _ := modify_self (set_Client client) in
                let* _ := modify_self (set_X11 (conf.ServerConfig.X11 serverConf)) in
                ret err
            end
          else
            let* proxyErr := createClientOverProxy fuel serverConf sshConf in
            match proxyErr with
            | Some e => ret (Some e)
            | None =>
                let* _ := modify_self (set_X11 (conf.ServerConfig.X11 serverConf)) in
                ret err
            end
      end
  end.

(** *** CreateSession *)
Definition CreateSession (fuel : nat)
  : M W (option xssh.Session * option error) :=
  let session : option xssh.Session := None in
  let* c := get_self in
  (* new connect *)
  let* err := if is_nil (Client c) then CreateClient fuel else ret None in
  match err with
  | Some e => ret (session, err)
  | None =>
      (* Check ssh client alive *)
      let* clientErr := CheckClientAlive in
      let* err := if negb (is_nil clientErr) then CreateClient fuel
                  else ret err in
      match err with
      | Some e => ret (session, err)
      | None =>
          (* New session *)
          let* c := get_self in
          let* client := deref (Client c) in
          let* (session, err) :=
            ext (EvNewSession client) (Client_NewSession env client) in
          ret (session, err)
      end
  end.

(** *** runLocalRcShell *)
Definition runLocalRcShell (preSession : xssh.Session)
  : M W (xssh.Session * option error) :=
  let* c := get_self in
  let session := preSession in
  (* command *)
  let cmd :=
    ("bash --rcfile <(echo " ++ LocalRcData c
     ++ "|((base64 --help | grep -q coreutils) && base64 -d <(cat) || base64 -D <(cat) ))")%string in
  (* decode command *)
  let cmd :=
    if (0 <? String.length (LocalRcDecodeCmd c))%nat
    then ("bash --rcfile <(echo " ++ LocalRcData c ++ " | "
          ++ LocalRcDecodeCmd c ++ ")")%string
    else cmd in
  let* err := ext (EvStart session cmd) (Session_Start env session cmd) in
  ret (session, err).

(** *** ConTerm

    [session] is the non-nil session the callers pass. The two [go]
    statements start tasks of their own; the trace is that of the
    calling task, in which they leave one [EvGo] each. *)
Definition ConTerm (session : xssh.Session) : M W (option error) :=
  let fd := os_Stdin_Fd env in
  let* (state, err) := ext (EvMakeRaw fd) (terminal_MakeRaw env fd) in
  match err with
  | Some e => ret err
  | None =>
      with_defer
        (let* _ := ext (EvRestore fd state) (terminal_Restore env fd state) in
         ret tt)
        ((* get terminal size *)
         let* (width, height, err) :=
           ext (EvGetSize fd) (terminal_GetSize env fd) in
         match err with
         | Some e => ret err
         | None =>
             let* term := ext (EvGetenv "TERM") (os_Getenv env "TERM") in
             let* err := ext (EvRequestPty session term height width)
                             (Session_RequestPty env session term height width) in
             match err with
             | Some e => ret err
             | None =>
                 (* start shell *)
                 let* c := get_self in
                 let* (session, err) :=
                   if IsLocalRc c then runLocalRcShell session
                   else
                     let* err := ext (EvShell session)
                                     (Session_Shell env session) in
                     ret (session, err) in
                 match err with
                 | Some e => ret err
                 | None =>
                     (* Terminal resize *)
                     let* _ :=
                       if negb (runtime_GOOS env =? "windows")%string then
                         let* _ := emit (EvSignalNotify 28) in
                         emit (EvGo "WindowChange")
                       else ret tt in
                     (* keep alive packet *)
                     let* _ := emit (EvGo "SendKeepAlive") in
                     let* err := ext (EvWait session)
                                     (Session_Wait env session) in
                     ret err
                 end
             end
         end)
  end.

(** *** cmdRun

    The receiver of the monad is [conn]. [RunCmdWithOutput] is modelled
    on its own below; here it is one event. The task started for it and
    the one-armed [select] amount to a call followed by
    [close(outputChan)]. *)
Definition cmdRun (fuel : nat) (r : Run) (serverListIndex : nat) : M W unit :=
  (* create session *)
  let* (session, err) := CreateSession fuel in
  let* conn := get_self in
  match err with
  | Some e =>
      let* _ := emit (EvStderr (Server conn) e) in
      emit EvCloseOutputChan
  | None =>
      (* x11 *)
      let* _ :=
        if IsX11 r || X11 conn then
          let* s := deref session in
          ext (EvX11Forwarder s) (Connect_X11Forwarder env s)
        else ret tt in
      (* set stdin *)
      let* _ :=
        if (0 <? length (StdinData r))%nat then
          let* s := deref session in
          emit (EvSetStdin s (StdinData r))
        else if Run_IsParallel r || (length (ServerList r) =? 1)%nat then
          let* s := deref session in
          let* (writer, _) :=
            ext (EvStdinPipe s) (Session_StdinPipe env s) in
          emit (EvSendInputWriter writer)
        else ret tt in
      (* run command and get output data to outputChan *)
      let* s := deref session in
      let* _ := emit (EvRunCmdWithOutput s (ExecCmd r)) in
      emit EvCloseOutputChan
  end.

End Methods.

(** *** The collector of [cmd]

    The handles that a host task publishes on [inputWriter]. *)
Definition published (evs : list Event) : list (option Writer) :=
  omap (fun ev => match ev with
                  | EvSendInputWriter w => Some w
                  | _ => None
                  end) evs.

(** Whether [cmd] starts the task that builds the broadcast sink
    ([r.IsParallel || len(r.ServerList) == 1], then
    [len(r.StdinData) == 0]). *)
Definition broadcast_active (r : Run) : bool :=
  (Run_IsParallel r || (length (ServerList r) =? 1)%nat)
  && (length (StdinData r) =? 0)%nat.

(** [for i := 0; i < len(r.ServerList); i++ { writer := <-inputWriter; ... }]
    on the unbuffered channel [inputWriter], given all the handles the host
    tasks ever send, in the order they are received: the loop ends with its
    [writers] after [len(r.ServerList)] receives, and otherwise stays
    blocked in a receive ([None]), so that neither [io.MultiWriter] nor
    [pushInput] is reached. *)
Definition collect_writers (r : Run) (sent : list (option Writer))
  : option (list (option Writer)) :=
  if decide (length (ServerList r) ≤ length sent)%nat
  then Some (take (length (ServerList r)) sent)
  else None.

(** ** Reading traces *)

Definition is_CreateClient (ev : Event) : bool :=
  match ev with EvCreateClient => true | _ => false end.
Definition is_NewSession (ev : Event) : bool :=
  match ev with EvNewSession _ => true | _ => false end.
Definition is_raw_or_restore (ev : Event) : bool :=
  match ev with EvMakeRaw _ | EvRestore _ _ => true | _ => false end.
Definition is_SendInputWriter (ev : Event) : bool :=
  match ev with EvSendInputWriter _ => true | _ => false end.

(** The events that only [CreateClient], [CreateSession] and [cmdRun]
    themselves record, and none of the functions they call. *)
Definition marked (ev : Event) : bool :=
  is_CreateClient ev || is_NewSession ev || is_SendInputWriter ev.

Fixpoint count (p : Event → bool) (evs : list Event) : nat :=
  match evs with
  | [] => 0
  | ev :: evs' => (if p ev then 1 else 0) + count p evs'
  end.

(** Whenever [m] returns, it has appended only events outside [p]. *)
Definition appends_no {W A} (p : Event → bool) (m : M W A) : Prop :=
  ∀ s a s', m s = Returns a s' →
    ∃ evs, trace s' = trace s ++ evs ∧ count p evs = 0.

(** [m] always returns, and appends only events outside [p]. *)
Definition returns_no {W A} (p : Event → bool) (m : M W A) : Prop :=
  ∀ s, ∃ a s' evs,
    m s = Returns a s' ∧ trace s' = trace s ++ evs ∧ count p evs = 0.

(** The state [s0] in which [CreateSession], called in [s], runs its
    liveness probe: [s] itself when there is a client, and otherwise the
    state in which the first [CreateClient] returns nil. *)
Definition probe_state {W} (env : Env W) (fuel : nat) (s s0 : St W) : Prop :=
  (Client (self s) ≠ None ∧ s0 = s)
  ∨ (Client (self s) = None ∧ CreateClient env fuel s = Returns None s0).

(** ** RunCmdWithOutput

    [io.EOF] and [bytes.Buffer.ReadBytes]: the bytes up to and including
    the first [delim] and a nil error, or else all unread bytes and
    [io.EOF]. The second component is what stays unread. *)
Definition io_EOF : error := errors_New "EOF".

Fixpoint ReadBytes (delim : byte) (buf : list byte)
  : list byte * list byte * option error :=
  match buf with
  | [] => ([], [], Some io_EOF)
  | b :: rest =>
      if Byte.eqb b delim then ([b], rest, None)
      else let '(line, rest', err) := ReadBytes delim rest in
           (b :: line, rest', err)
  end.

Definition newline : byte := "010"%byte.

(** The [for] loop under [// last check]: every line read with an error
    other than [io.EOF] is sent, and [io.EOF] leaves the loop. [n] bounds
    the iterations; a read without error takes at least one byte, so
    [S (length buf)] of them are never used up. The result is the chunks
    sent and the bytes read on the last iteration, which are not sent. *)
Fixpoint last_check_loop (n : nat) (buf : list byte)
  : list (list byte) * list byte :=
  match n with
  | O => ([], [])
  | S n' =>
      let '(line, rest, err) := ReadBytes newline buf in
      if bool_decide (err ≠ Some io_EOF) then
        let '(sent, dropped) := last_check_loop n' rest in
        (line :: sent, dropped)
      else ([], line)
  end.

Definition last_check (buf : list byte) : list (list byte) * list byte :=
  if (0 <? length buf)%nat then last_check_loop (S (length buf)) buf
  else ([], []).

(** [RunCmdWithOutput] polls [outputBuf] while the session, in tasks of
    its own, appends the command's output to it and [RunCmd] returns. An
    execution is one interleaving of the three, given as a schedule. *)
Inductive place :=
| AtLen        (* about to evaluate [outputBuf.Len() > 0] *)
| AtSelect     (* in the [select] of the [else] arm *)
| Returned.    (* past the last check *)

Record pump := mkPump {
  outputBuf : list byte;          (* unread bytes of the buffer *)
  outputChan : list (list byte);  (* chunks sent so far, oldest first *)
  to_write : list byte;           (* output the command has yet to produce *)
  isExit : bool;                  (* the task is at [isExit <- true] *)
  at_ : place
}.

Inductive tick :=
| Append (n : nat)   (* the session appends the next [n] bytes of output *)
| Exit              (* [RunCmd] returns, all output being written *)
| Timer           (* the [select] takes [<-time.After(10ms)] *)
| Step.             (* the loop goes on; in the [select], with [<-isExit] *)

Definition step (p : pump) (t : tick) : pump :=
  match t with
  | Append n =>
      mkPump (outputBuf p ++ take n (to_write p)) (outputChan p)
             (drop n (to_write p)) (isExit p) (at_ p)
  | Exit =>
      match to_write p with
      | [] => mkPump (outputBuf p) (outputChan p) [] true (at_ p)
      | _ :: _ => p
      end
  | Timer =>
      match at_ p with
      | AtSelect =>
          mkPump (outputBuf p) (outputChan p) (to_write p) (isExit p) AtLen
      | _ => p
      end
  | Step =>
      match at_ p with
      | AtLen =>
          if (0 <? length (outputBuf p))%nat then
            let '(line, rest, _) := ReadBytes newline (outputBuf p) in
            mkPump rest (outputChan p ++ [line]) (to_write p) (isExit p) AtLen
          else
            mkPump (outputBuf p) (outputChan p) (to_write p) (isExit p) AtSelect
      | AtSelect =>
          if isExit p then
            (* break GetOutputLoop, then the last check *)
            let '(sent, dropped) := last_check (outputBuf p) in
            mkPump [] (outputChan p ++ sent) (to_write p) (isExit p) Returned
          else p
      | Returned => p
      end
  end.

Definition RunCmdWithOutput (output : list byte) (schedule : list tick) : pump :=
  foldl step (mkPump [] [] output false AtLen) schedule.

(** What every interleaving keeps true of the pump: the output is what
    was sent, then what the last check dropped, then what is still in the
    buffer or unwritten; nothing is dropped before the function returns. *)
Definition pump_inv (output : list byte) (p : pump) : Prop :=
  ∃ lost,
    output = concat (outputChan p) ++ lost ++ outputBuf p ++ to_write p
    ∧ (newline ∉ lost)
    ∧ (at_ p ≠ Returned → lost = [])
    ∧ (isExit p = true → to_write p = [])
    ∧ (at_ p = Returned → outputBuf p = [] ∧ to_write p = []).

(** *** Sample configurations *)

Definition server_via (proxy proxy_type : string) : conf.ServerConfig.t :=
  conf.ServerConfig.mk "10.0.0.1" "22" "admin" proxy proxy_type "" false false false.

(** target [web] goes through the plain server [A], which goes through the
    socks5 proxy [B]. *)
Definition cfg_chain : conf.Config :=
  conf.mkConfig
    (<["web" := server_via "A" ""]> (<["A" := server_via "B" "socks5"]> ∅))
    (<["B" := conf.ProxyConfig.mk "10.0.0.9" "1080" "" ""]> ∅).

(** [web] names a proxy that is configured nowhere. *)
Definition cfg_dangling : conf.Config :=
  conf.mkConfig (<["web" := server_via "ghost" ""]> ∅) ∅.

(** [a] and [b] name each other. *)
Definition cfg_cycle : conf.Config :=
  conf.mkConfig
    (<["a" := server_via "b" ""]> (<["b" := server_via "a" ""]> ∅)) ∅.

(** [A] is a plain server for [web] and its own socks5 proxy. *)
Definition cfg_twice : conf.Config :=
  conf.mkConfig
    (<["web" := server_via "A" ""]> (<["A" := server_via "A" "socks5"]> ∅))
    (<["A" := conf.ProxyConfig.mk "10.0.0.9" "1080" "" ""]> ∅).

(** A rank that decreases along the references of [cfg_chain]. *)
Definition rank_chain (name : string) : nat :=
  if (name =? "web")%string then 2 else if (name =? "A")%string then 1 else 0.

(** A world without state: every call answers the same way each time. *)
Definition sample_env
    (via : conf.ServerConfig.t → option xssh.Client * option error)
    (dial : option xssh.Client * option error)
    (probe pty : option error) : Env unit :=
  mkEnv unit
    (fun w => (None, w))
    (fun server w => ([xssh.AuthId 0], None, w))
    (fun network addr sshConf w => (dial, w))
    (fun proxyConf w => (Some (DialerId 0), None, w))
    (fun proxyConf w => (Some (DialerId 1), None, w))
    (fun serverConf sshConf proxyClient proxyDialer w => (via serverConf, w))
    (fun client name wantReply w => (probe, w))
    (fun client w => (Some (xssh.SessionId 0), None, w))
    0 1 "linux"
    (fun fd w => (Some (TermStateId 0), None, w))
    (fun fd state w => (None, w))
    (fun fd w => (80, 24, None, w))
    (fun key w => ("xterm", w))
    (fun session term h w_ w => (pty, w))
    (fun session w => (None, w))
    (fun session cmd w => (None, w))
    (fun session w => (None, w))
    (fun session w => (Some (WriterId 0), None, w))
    (fun session w => (tt, w)).

Definition server_at (addr proxy : string) : conf.ServerConfig.t :=
  conf.ServerConfig.mk addr "22" "admin" proxy "" "" false false false.

(** [web] is reached through the ssh server [A]. *)
Definition cfg_jump : conf.Config :=
  conf.mkConfig
    (<["web" := server_at "10.0.0.1" "A"]> (<["A" := server_at "10.0.0.2" ""]> ∅))
    ∅.

Definition refused : error :=
  errors_New "dial tcp 10.0.0.2:22: connect: connection refused".

(** The hop at 10.0.0.2 refuses connections; every other dial succeeds. *)
Definition via_hop_down (serverConf : conf.ServerConfig.t)
  : option xssh.Client * option error :=
  if (conf.ServerConfig.Addr serverConf =? "10.0.0.2")%string
  then (None, Some refused)
  else (Some (xssh.ClientId 1), None).

Definition env_hop_down : Env unit :=
  sample_env via_hop_down (Some (xssh.ClientId 2), None) None None.

Definition conn_to (server : string) (config : conf.Config)
    (client : option xssh.Client) : Connect :=
  mkConnect server config client false false false "" "" false.

Definition admin_conf : option xssh.ClientConfig :=
  Some (xssh.mkClientConfig "admin" [xssh.AuthId 0] 30).

Definition cfg_direct : conf.Config :=
  conf.mkConfig (<["db" := server_at "10.0.0.3" ""]> ∅) ∅.

Definition unreachable : error :=
  errors_New "dial tcp 10.0.0.3:22: connect: no route to host".

Definition env_unreachable : Env unit :=
  sample_env (fun _ => (None, Some unreachable)) (None, Some unreachable) None None.

Definition run_one : Run := mkRun ["db"] true false ["uptime"] [].

(** The probe is answered with an explicit failure of the request. *)
Definition env_unsupported : Env unit :=
  sample_env via_hop_down (Some (xssh.ClientId 2), None)
             (Some (errors_New "request failed")) None.

(** The connection is gone and the host cannot be reached any more. *)
Definition env_stale : Env unit :=
  sample_env (fun _ => (None, Some unreachable)) (None, Some unreachable)
             (Some io_EOF) None.

(** The server refuses the pseudo-terminal. *)
Definition env_no_pty : Env unit :=
  sample_env via_hop_down (Some (xssh.ClientId 2), None) None
             (Some (errors_New "ssh: pty-req failed")).

(** A [Connect] to [db] that holds a client from an earlier session. *)
Definition st_connected : St unit :=
  mkSt (conn_to "db" cfg_direct (Some (xssh.ClientId 7))) tt [].

(** * Further definitions *)

(** ** The walk seen from its loop condition

    Whether an iteration of the walk leaves the loop depends on the current
    target and on whether its kind is a tunnel kind, not on the hops
    collected so far. [ctl_next] is the target and tunnel flag of the next
    iteration, if there is one. *)
Definition ctl_next (config : conf.Config) (target : string) (tunnel : bool)
  : option (string * bool) :=
  if tunnel then None
  else match conf.Server config !! target with
       | Some sc =>
           if (conf.ServerConfig.Proxy sc =? "")%string then None
           else Some (conf.ServerConfig.Proxy sc,
                      isTunnel (conf.ServerConfig.ProxyType sc))
       | None => None
       end.

(** The names the walk collects from [target] on, in walk order, as long
    as [fuel] iterations are enough to reach the [break]. *)
Fixpoint trail (fuel : nat) (config : conf.Config) (target : string)
    (tunnel : bool) : option (list string) :=
  match fuel with
  | O => None
  | S fuel' =>
      match ctl_next config target tunnel with
      | None => Some []
      | Some (target', tunnel') =>
          cons target' <$> trail fuel' config target' tunnel'
      end
  end.

(** What holds of the loop variables of the walk from [server] besides
    [walk_inv]: every name collected is the proxy reference of the entry
    before it, every name but the last collected was declared with a kind
    that is no tunnel, and the current kind is the one declared for the
    last name collected. *)
Definition walk_chain (server : string) (config : conf.Config) (st : walk)
  : Prop :=
  last (server :: proxyList st) = Some (targetServer st)
  ∧ (∀ i r n,
       (server :: proxyList st) !! i = Some r →
       proxyList st !! i = Some n →
       refers config r n
       ∧ (i + 1 < length (proxyList st) →
          isTunnel (conf.ServerConfig.ProxyType (conf.Server_at config r))
          = false))
  ∧ (match last (proxyList st) with
     | None => targetType st = ""
     | Some _ =>
         ∃ r, (server :: proxyList st) !! (length (proxyList st) - 1) = Some r
              ∧ targetType st
                = kind_of (conf.ServerConfig.ProxyType (conf.Server_at config r))
     end).

(** Whenever [m] returns, the receiver is as it was. *)
Definition keeps_self {W A} (m : M W A) : Prop :=
  ∀ s a s', m s = Returns a s' → self s' = self s.

Definition is_Shell (ev : Event) : bool :=
  match ev with EvShell _ => true | _ => false end.
Definition is_Start (ev : Event) : bool :=
  match ev with EvStart _ _ => true | _ => false end.
Definition is_CloseOutputChan (ev : Event) : bool :=
  match ev with EvCloseOutputChan => true | _ => false end.

(** A chunk as the pump sends them: not empty, with no line terminator
    before its last byte. *)
Definition is_line (chunk : list byte) : Prop :=
  chunk ≠ [] ∧ ∀ i, i + 1 < length chunk → chunk !! i ≠ Some newline.

(** ** RunCmd and setIsTerm

    The calls that [RunCmd] and [setIsTerm] make on a session and on the
    local terminal, in program order. The pty request carries the value of
    [ssh.ECHO] of its terminal modes (the two speeds are always 14400). *)
Inductive SessionCall :=
| CallGetSize (fd : nat)
| CallGetenv (key : string)
| CallRequestPty (session : xssh.Session) (term : string) (h w : nat)
                 (echo : nat)
| CallRun (session : xssh.Session) (cmd : string)
| CallClose (session : xssh.Session).

(** [session.Run] and [session.Close], which [Env] has no use for. *)
Record SessionEnv (W : Type) := mkSessionEnv {
  Session_Run : xssh.Session → string → W → option error * W;
  Session_Close : xssh.Session → W → option error * W
}.
Arguments Session_Run {W}.
Arguments Session_Close {W}.

(** How [RunCmd] ends: it returns its [err], or a nil session is
    dereferenced. *)
Inductive run_result :=
| Done (err : option error)
| NilSession.

(** [strings.Join]. *)
Fixpoint strings_Join (elems : list string) (sep : string) : string :=
  match elems with
  | [] => ""
  | [x] => x
  | x :: rest => (x ++ sep ++ strings_Join rest sep)%string
  end.

Definition is_CallRun (call : SessionCall) : bool :=
  match call with CallRun _ _ => true | _ => false end.
Definition is_CallClose (call : SessionCall) : bool :=
  match call with CallClose _ => true | _ => false end.
Definition is_CallRequestPty (call : SessionCall) : bool :=
  match call with CallRequestPty _ _ _ _ _ => true | _ => false end.

Section RunCmd.
Context {W : Type} (env : Env W) (senv : SessionEnv W).

(** *** setIsTerm

    The state is passed along: the result is the pair of results, the
    world and the calls made. [preSession] is the non-nil session of the
    caller. *)
Definition setIsTerm (c : Connect) (preSession : xssh.Session) (w : W)
  : option xssh.Session * option error * W * list SessionCall :=
  let session : option xssh.Session := None in
  if IsTerm c then
    (* Get terminal window size *)
    let fd := os_Stdin_Fd env in
    let '(width, hight, err, w1) := terminal_GetSize env fd w in
    match err with
    | Some _ =>
        let '(_, w2) := Session_Close senv preSession w1 in
        (session, err, w2, [CallGetSize fd; CallClose preSession])
    | None =>
        let '(term, w2) := os_Getenv env "TERM" w1 in
        let '(err, w3) := Session_RequestPty env preSession term hight width w2 in
        match err with
        | Some _ =>
            let '(_, w4) := Session_Close senv preSession w3 in
            (session, err, w4,
             [CallGetSize fd; CallGetenv "TERM";
              CallRequestPty preSession term hight width 0;
              CallClose preSession])
        | None =>
            (Some preSession, None, w3,
             [CallGetSize fd; CallGetenv "TERM";
              CallRequestPty preSession term hight width 0])
        end
    end
  else (Some preSession, None, w, []).

(** *** RunCmd

    [defer session.Close()] fixes its receiver when it is executed, so the
    deferred call closes the session that was passed in, whatever
    [setIsTerm] returns. The task that runs the command and the loop that
    polls [isExit] every 10ms amount to a call of [session.Run]; a nil
    session would be dereferenced in that task, which ends the program
    before [RunCmd] can return. *)
Definition RunCmd (c : Connect) (session : xssh.Session)
    (command : list string) (w : W)
  : run_result * W * list SessionCall :=
  let deferred (err : option error) (w' : W) (calls : list SessionCall) :=
    let '(_, w'') := Session_Close senv session w' in
    (Done err, w'', calls ++ [CallClose session]) in
  (* set TerminalModes *)
  let '(session', err, w1, calls1) := setIsTerm c session w in
  match err with
  | Some _ => deferred err w1 calls1
  | None =>
      (* join command *)
      let execCmd := strings_Join command " " in
      (* run command *)
      match session' with
      | None => (NilSession, w1, calls1)
      | Some running =>
          let '(err, w2) := Session_Run senv running execCmd w1 in
          deferred err w2 (calls1 ++ [CallRun running execCmd])
      end
  end.

End RunCmd.

(** The number of calls in [calls] that [p] holds of. *)
Fixpoint count_calls (p : SessionCall → bool) (calls : list SessionCall) : nat :=
  match calls with
  | [] => 0
  | call :: calls' => (if p call then 1 else 0) + count_calls p calls'
  end.

(** *** Sample worlds for the further properties *)

(** [env] with another answer for [createSshAuth]. *)
Definition with_createSshAuth {W}
    (answer : string → W → list xssh.AuthMethod * option error * W)
    (env : Env W) : Env W :=
  mkEnv W (CreateSshAgent env) answer (ssh_Dial env)
    (createProxyDialerHttp env) (createProxyDialerSocks5 env)
    (createClientViaProxy env) (Client_SendRequest env) (Client_NewSession env)
    (os_Stdin_Fd env) (os_Stdout_Fd env) (runtime_GOOS env)
    (terminal_MakeRaw env) (terminal_Restore env) (terminal_GetSize env)
    (os_Getenv env) (Session_RequestPty env) (Session_Shell env)
    (Session_Start env) (Session_Wait env) (Session_StdinPipe env)
    (Connect_X11Forwarder env).

(** [env] with another answer for [createProxyDialerSocks5]. *)
Definition with_createProxyDialerSocks5 {W}
    (answer : conf.ProxyConfig.t → W → option Dialer * option error * W)
    (env : Env W) : Env W :=
  mkEnv W (CreateSshAgent env) (createSshAuth env) (ssh_Dial env)
    (createProxyDialerHttp env) answer
    (createClientViaProxy env) (Client_SendRequest env) (Client_NewSession env)
    (os_Stdin_Fd env) (os_Stdout_Fd env) (runtime_GOOS env)
    (terminal_MakeRaw env) (terminal_Restore env) (terminal_GetSize env)
    (os_Getenv env) (Session_RequestPty env) (Session_Shell env)
    (Session_Start env) (Session_Wait env) (Session_StdinPipe env)
    (Connect_X11Forwarder env).

(** [env] with another answer for [terminal.MakeRaw]. *)
Definition with_terminal_MakeRaw {W}
    (answer : nat → W → option TermState * option error * W)
    (env : Env W) : Env W :=
  mkEnv W (CreateSshAgent env) (createSshAuth env) (ssh_Dial env)
    (createProxyDialerHttp env) (createProxyDialerSocks5 env)
    (createClientViaProxy env) (Client_SendRequest env) (Client_NewSession env)
    (os_Stdin_Fd env) (os_Stdout_Fd env) (runtime_GOOS env)
    answer (terminal_Restore env) (terminal_GetSize env)
    (os_Getenv env) (Session_RequestPty env) (Session_Shell env)
    (Session_Start env) (Session_Wait env) (Session_StdinPipe env)
    (Connect_X11Forwarder env).

Definition no_key : error := errors_New "ssh: no key found".

(** One signer is found and a second key file cannot be read. *)
Definition env_no_key : Env unit :=
  with_createSshAuth (fun server w => ([xssh.AuthId 0], Some no_key, w))
                     env_hop_down.

Definition socks_down : error := errors_New "proxy: unknown scheme".

Definition env_socks_down : Env unit :=
  with_createProxyDialerSocks5 (fun proxyConf w => (None, Some socks_down, w))
                               env_hop_down.

Definition not_a_tty : error := errors_New "inappropriate ioctl for device".

Definition env_not_a_tty : Env unit :=
  with_terminal_MakeRaw (fun fd w => (None, Some not_a_tty, w)) env_hop_down.

(** A [Connect] to [db] that has not connected yet. *)
Definition st_fresh : St unit := mkSt (conn_to "db" cfg_direct None) tt [].

(** The same with [IsTerm] set. *)
Definition conn_tty : Connect :=
  mkConnect "db" cfg_direct None true false false "" "" false.

(** A world without state for [RunCmd]. *)
Definition sample_senv (run : option error) : SessionEnv unit :=
  mkSessionEnv unit (fun session cmd w => (run, w)) (fun session w => (None, w)).

(** The task of the reachable host [db], run to its end. *)
Definition st_db_done : St unit :=
  mkSt (conn_to "db" cfg_direct (Some (xssh.ClientId 2))) tt
       [EvCreateClient; EvCreateSshAuth "db";
        EvDial "tcp" "10.0.0.3:22" admin_conf;
        EvSendRequest (xssh.ClientId 2) "keepalive@lssh.com" true;
        EvNewSession (xssh.ClientId 2);
        EvStdinPipe (xssh.SessionId 0);
        EvSendInputWriter (Some (WriterId 0));
        EvRunCmdWithOutput (xssh.SessionId 0) ["uptime"];
        EvCloseOutputChan].

(** * Properties *)

(** ** The reversal of the hop list *)

Lemma swap_ends (a m b : list string) (x y : string) :
  swap (a ++ x :: m ++ y :: b) (length a) (length a + S (length m))
  = a ++ y :: m ++ x :: b.
Proof.
  unfold swap.
  assert (Hi : (a ++ x :: m ++ y :: b) !! length a = Some x).
  { by rewrite list_lookup_middle. }
  assert (Hj : (a ++ x :: m ++ y :: b) !! (length a + S (length m)) = Some y).
  { rewrite lookup_app_r by lia.
    replace (length a + S (length m) - length a) with (S (length m)) by lia.
    simpl. by rewrite list_lookup_middle. }
  rewrite Hi, Hj.
  rewrite insert_app_r_alt by lia.
  replace (length a - length a) with 0 by lia. simpl.
  rewrite insert_app_r_alt by lia.
  replace (length a + S (length m) - length a) with (S (length m)) by lia.
  simpl. rewrite insert_app_r_alt by lia.
  replace (length m - length m) with 0 by lia. done.
Qed.

Lemma reverse_loop_middle (n : nat) : ∀ (a m b : list string),
  length m ≤ 2 * n + 1 →
  reverse_loop n (length a) (length a + length m - 1) (a ++ m ++ b)
  = a ++ reverse m ++ b.
Proof.
  induction n as [|n IH]; intros a m b Hlen.
  - destruct m as [|x [|y m]]; simpl in *; try lia; done.
  - simpl. destruct m as [|x m].
    { simpl. case_decide; [lia | done]. }
    destruct (decide (m = [])) as [->|Hne].
    { simpl. case_decide; [lia | done]. }
    destruct (exists_last Hne) as (m' & y & ->).
    rewrite length_cons, length_app in *. simpl in *.
    rewrite decide_True by lia.
    replace (length a + S (length m' + 1) - 1)
      with (length a + S (length m')) by lia.
    rewrite <- (app_assoc m' [y] b). simpl.
    rewrite swap_ends.
    specialize (IH (a ++ [y]) m' (x :: b)).
    rewrite length_app in IH. simpl in IH.
    replace (length a + S (length m') - 1) with (length a + 1 + length m' - 1)
      by lia.
    rewrite <- !app_assoc in IH. simpl in IH.
    rewrite IH by lia.
    rewrite reverse_cons, reverse_app. simpl.
    by rewrite <- !app_assoc.
Qed.

Lemma reverse_slice_reverse (l : list string) : reverse_slice l = reverse l.
Proof.
  unfold reverse_slice.
  pose proof (reverse_loop_middle (length l) [] l []) as H.
  simpl in H. rewrite !app_nil_r in H. apply H. lia.
Qed.

(** ** The hop walk

    One iteration either leaves the loop or follows a reference of the
    graph; the third exit is never taken. *)
Lemma loop_body_cases (config : conf.Config) (st : walk) :
  (loop_body config st = Break
   ∧ (isTunnel (targetType st) = true
      ∨ ¬ ∃ b, refers config (targetServer st) b))
  ∨ (∃ sc, isTunnel (targetType st) = false
        ∧ conf.Server config !! targetServer st = Some sc
        ∧ conf.ServerConfig.Proxy sc ≠ ""
        ∧ loop_body config st
          = Next (mkWalk (conf.ServerConfig.Proxy sc)
                         (kind_of (conf.ServerConfig.ProxyType sc))
                         (proxyList st ++ [conf.ServerConfig.Proxy sc])
                         (<[conf.ServerConfig.Proxy sc
                            := kind_of (conf.ServerConfig.ProxyType sc)]>
                            (proxyType st)))).
Proof.
  unfold loop_body, conf.Server_at.
  destruct (isTunnel (targetType st)) eqn:Ht; [left; auto|].
  destruct (conf.Server config !! targetServer st) as [sc|] eqn:Hs; simpl.
  - destruct (String.eqb_spec (conf.ServerConfig.Proxy sc) "") as [He|Hne].
    + left. split; [done|]. right. intros (b & sc' & Hsc' & Hb & Hnb). naive_solver.
    + right. exists sc. unfold kind_of. done.
  - left. split; [done|]. right. intros (b & sc' & Hsc' & _). congruence.
Qed.

Lemma loop_body_never_fails config st err : loop_body config st ≠ Failed err.
Proof.
  destruct (loop_body_cases config st) as [[-> _]|(sc & _ & _ & _ & ->)]; done.
Qed.

Lemma hop_walk_never_fails fuel : ∀ config st err,
  hop_walk fuel config st ≠ Some (inr err).
Proof.
  induction fuel as [|fuel IH]; intros config st err; simpl; [done|].
  destruct (loop_body config st) eqn:Hb; [apply IH | done |].
  by apply loop_body_never_fails in Hb.
Qed.

Lemma hop_walk_mono fuel : ∀ fuel' config st r,
  hop_walk fuel config st = Some r → fuel ≤ fuel' →
  hop_walk fuel' config st = Some r.
Proof.
  induction fuel as [|fuel IH]; intros fuel' config st r; simpl; [done|].
  intros H Hle. destruct fuel' as [|fuel']; [lia|]. simpl.
  destruct (loop_body config st); [|done..].
  apply IH; [done | lia].
Qed.

Lemma GetProxyList_mono fuel fuel' server config r :
  GetProxyList fuel server config = Some r → fuel ≤ fuel' →
  GetProxyList fuel' server config = Some r.
Proof.
  unfold GetProxyList. intros H Hle.
  destruct (hop_walk fuel _ _) as [w|] eqn:Hw; [|done].
  by rewrite (hop_walk_mono _ _ _ _ _ Hw Hle).
Qed.

Lemma GetProxyList_deterministic fuel fuel' server config r r' :
  GetProxyList fuel server config = Some r →
  GetProxyList fuel' server config = Some r' → r = r'.
Proof.
  intros H H'. destruct (Nat.le_ge_cases fuel fuel') as [Hle|Hle].
  - apply (GetProxyList_mono _ _ _ _ _ H) in Hle. congruence.
  - apply (GetProxyList_mono _ _ _ _ _ H') in Hle. congruence.
Qed.

(** ** Resolving names that are configured nowhere *)

(** C4 (the code departs from it): a walk that reaches a name found neither
    among the servers nor among the proxies should end with a "not found"
    error and no hops. On [cfg_dangling], where [web] names the unknown
    [ghost], [GetProxyList] returns the hop [ghost] of kind ssh and a nil
    error; and on no configuration at all does it return an error. *)
Theorem GetProxyList_missing_name_no_error :
  GetProxyList 2 "web" cfg_dangling
  = Some (["ghost"], <["ghost" := "ssh"]> ∅, None)
  ∧ conf.Server cfg_dangling !! "ghost" = None
  ∧ conf.Proxy cfg_dangling !! "ghost" = None
  ∧ ∀ fuel server config l m err,
      GetProxyList fuel server config ≠ Some (l, m, Some err).
Proof.
  split; [by vm_compute|]. split; [done|]. split; [done|].
  intros fuel server config l m err. unfold GetProxyList.
  destruct (hop_walk fuel config _) as [[st|e]|] eqn:Hw; try done.
  by apply hop_walk_never_fails in Hw.
Qed.

(** ** The two-hop scenario *)

(** C2, amended: when the target names the plain server [A] as its proxy and
    [A] names [B] as its socks5 proxy, [B] being listed among the proxy
    entries, [GetProxyList] returns the hops in dial order, [[B; A]], and
    the kinds socks5 for [B] and ssh for [A]. *)
Theorem GetProxyList_two_hops (fuel : nat) (config : conf.Config)
    (server A B : string) (scT scA : conf.ServerConfig.t) :
  conf.Server config !! server = Some scT →
  conf.ServerConfig.Proxy scT = A →
  isTunnel (conf.ServerConfig.ProxyType scT) = false →
  conf.Server config !! A = Some scA →
  conf.ServerConfig.Proxy scA = B →
  conf.ServerConfig.ProxyType scA = "socks5" →
  is_Some (conf.Proxy config !! B) →
  A ≠ "" → B ≠ "" → 3 ≤ fuel →
  GetProxyList fuel server config
  = Some ([B; A], <[B := "socks5"]> (<[A := "ssh"]> ∅), None).
Proof.
  intros HT HA HTt HsA HB HAt _ HnA HnB Hfuel.
  apply (GetProxyList_mono 3); [|done].
  unfold GetProxyList. simpl.
  destruct (loop_body_cases config (mkWalk server "" [] ∅))
    as [[_ [Hc|Hc]]|(sc & _ & Hsc & _ & ->)]; simpl in *.
  { done. }
  { destruct Hc. exists A, scT. by rewrite HA. }
  rewrite HT in Hsc. injection Hsc as <-. rewrite HA.
  unfold kind_of at 1 3. rewrite HTt.
  set (st1 := mkWalk A _ _ _).
  destruct (loop_body_cases config st1)
    as [[_ [Hc|Hc]]|(sc & _ & Hsc & _ & ->)]; simpl in *.
  { done. }
  { destruct Hc. exists B, scA. by rewrite HB. }
  rewrite HsA in Hsc. injection Hsc as <-. rewrite HB, HAt.
  unfold kind_of. simpl.
  unfold loop_body. simpl.
  by rewrite HTt, reverse_slice_reverse.
Qed.

Lemma GetProxyList_two_hops_witness :
  GetProxyList 3 "web" cfg_chain
  = Some (["B"; "A"], <["B" := "socks5"]> (<["A" := "ssh"]> ∅), None).
Proof.
  apply (GetProxyList_two_hops 3 cfg_chain "web" "A" "B"
           (server_via "A" "") (server_via "B" "socks5"));
    try reflexivity; try (by vm_compute); try lia.
  vm_compute. eauto.
Defined.

(** On [cfg_chain] the premises of the scenario hold for [A] and [B], and
    the hop list is never [[A; B]]. *)
Lemma GetProxyList_two_hops_not_walk_order :
  conf.Server cfg_chain !! "web" = Some (server_via "A" "")
  ∧ conf.Server cfg_chain !! "A" = Some (server_via "B" "socks5")
  ∧ is_Some (conf.Proxy cfg_chain !! "B")
  ∧ ¬ ∃ fuel m, GetProxyList fuel "web" cfg_chain = Some (["A"; "B"], m, None).
Proof.
  split; [done|]. split; [done|]. split; [by vm_compute; eauto|].
  intros (fuel & m & H).
  assert (H3 : GetProxyList 3 "web" cfg_chain
               = Some (["B"; "A"], <["B" := "socks5"]> (<["A" := "ssh"]> ∅), None))
    by (by vm_compute).
  pose proof (GetProxyList_deterministic _ _ _ _ _ _ H H3) as Heq.
  discriminate Heq.
Qed.

(** ** Termination of the walk *)

(** A step of the walk that does not leave the loop follows a reference. *)
Lemma loop_body_Next_refers config st st' :
  loop_body config st = Next st' →
  refers config (targetServer st) (targetServer st').
Proof.
  destruct (loop_body_cases config st) as [[-> _]|(sc & _ & Hsc & Hne & ->)];
    [done|].
  intros [= <-]. by exists sc.
Qed.

(** With the names in [V] already passed, and no cycle in reach, the
    walk leaves the loop before the entries outside [V] are used up. *)
Lemma hop_walk_terminates config : ∀ k st (V : gset string),
  size (dom (conf.Server config) ∖ V) ≤ k →
  (∀ v, v ∈ V → tc (refers config) v (targetServer st)) →
  acyclic_from config (targetServer st) →
  ∃ r, hop_walk (S k) config st = Some r.
Proof.
  induction k as [|k IH]; intros st V Hsize Hpast Hacyc; simpl;
    (destruct (loop_body config st) as [st'| |err] eqn:Hb; [|eauto..]);
    apply loop_body_Next_refers in Hb as Hr;
    assert (targetServer st ∈ dom (conf.Server config) ∖ V) as Hin
      by (destruct Hr as (sc & Hsc & _);
          apply elem_of_difference; split; [by apply elem_of_dom|];
          intros Hv; by apply (Hacyc (targetServer st)), Hpast).
  - exfalso. apply (size_non_empty_iff (dom (conf.Server config) ∖ V)).
    + intros Hemp. rewrite Hemp in Hin. by apply not_elem_of_empty in Hin.
    + lia.
  - apply (IH st' (V ∪ {[targetServer st]})).
    + assert (size (dom (conf.Server config) ∖ (V ∪ {[targetServer st]}))
              < size (dom (conf.Server config) ∖ V)); [|lia].
      apply subset_size. set_solver.
    + intros v [Hv|Hv%elem_of_singleton]%elem_of_union.
      * eapply tc_r; [by apply Hpast | done].
      * subst v. by apply tc_once.
    + intros x Hx. apply Hacyc. by eapply rtc_l.
Qed.

Lemma cfg_cycle_runs_forever fuel : ∀ st,
  targetServer st = "a" ∨ targetServer st = "b" →
  isTunnel (targetType st) = false →
  hop_walk fuel cfg_cycle st = None.
Proof.
  induction fuel as [|fuel IH]; intros st Hst Ht; simpl; [done|].
  unfold loop_body. rewrite Ht.
  destruct Hst as [-> | ->]; simpl; apply IH; simpl; auto.
Qed.

Lemma cfg_cycle_refers_cycle : tc (refers cfg_cycle) "a" "a".
Proof.
  apply tc_l with "b"; [|apply tc_once].
  - by exists (server_via "b" "").
  - by exists (server_via "a" "").
Qed.

(** C7: the walk has no guard against cycles. It leaves its loop on every
    configuration whose references reachable from the target contain no
    cycle, and there is a configuration with a cycle of references among
    its server entries on which it never does. *)
Theorem GetProxyList_terminates_iff_no_cycle_met :
  (∀ config server, acyclic_from config server →
     ∃ fuel r, GetProxyList fuel server config = Some r)
  ∧ (∃ config server,
       tc (refers config) server server
       ∧ ∀ fuel, GetProxyList fuel server config = None).
Proof.
  split.
  - intros config server Hacyc.
    destruct (hop_walk_terminates config (size (dom (conf.Server config)))
                (mkWalk server "" [] ∅) ∅) as [r Hr].
    + apply subseteq_size. set_solver.
    + set_solver.
    + done.
    + exists (S (size (dom (conf.Server config)))). unfold GetProxyList.
      rewrite Hr. destruct r; eauto.
  - exists cfg_cycle, "a". split; [apply cfg_cycle_refers_cycle|].
    intros fuel. unfold GetProxyList.
    by rewrite cfg_cycle_runs_forever; simpl; auto.
Qed.

(** A rank that decreases along references shows there is no cycle. *)
Lemma ranked_acyclic config (rank : string → nat) server :
  (∀ a b, refers config a b → rank b < rank a) →
  acyclic_from config server.
Proof.
  intros Hrank x _ Hx.
  assert (∀ a b, tc (refers config) a b → rank b < rank a) as Htc.
  { induction 1 as [a b H|a b c H _ IH]; [by apply Hrank|].
    apply Hrank in H. lia. }
  apply Htc in Hx. lia.
Qed.

Lemma cfg_chain_acyclic : acyclic_from cfg_chain "web".
Proof.
  apply (ranked_acyclic _ rank_chain).
  intros a b (sc & Hsc & Hb & _). unfold cfg_chain in Hsc. simpl in Hsc.
  destruct (decide (a = "web")) as [->|Hw].
  { rewrite lookup_insert_eq in Hsc. injection Hsc as <-. subst b. vm_compute. lia. }
  rewrite lookup_insert_ne in Hsc by done.
  destruct (decide (a = "A")) as [->|Ha].
  { rewrite lookup_insert_eq in Hsc. injection Hsc as <-. subst b. vm_compute. lia. }
  rewrite lookup_insert_ne in Hsc by done. done.
Qed.

Lemma GetProxyList_terminates_witness :
  acyclic_from cfg_chain "web"
  ∧ ∃ fuel r, GetProxyList fuel "web" cfg_chain = Some r.
Proof.
  split; [apply cfg_chain_acyclic|].
  apply (proj1 GetProxyList_terminates_iff_no_cycle_met), cfg_chain_acyclic.
Defined.

(** ** The kind map *)

Lemma kind_of_hop_kinds declared : kind_of declared ∈ hop_kinds.
Proof.
  unfold kind_of, isTunnel, hop_kinds.
  destruct (String.eqb_spec declared "http") as [->|_]; simpl; [set_solver|].
  destruct (String.eqb_spec declared "https") as [->|_]; simpl; [set_solver|].
  destruct (String.eqb_spec declared "socks5") as [->|_]; simpl; set_solver.
Qed.

Lemma walk_inv_init server config : walk_inv server config (mkWalk server "" [] ∅).
Proof.
  split; [|split; [|split]]; simpl.
  - by rewrite dom_empty_L.
  - intros n k H. by rewrite lookup_empty in H.
  - done.
  - intros i r n _ H. by rewrite lookup_nil in H.
Qed.

Lemma walk_inv_step server config st st' :
  loop_body config st = Next st' →
  walk_inv server config st → walk_inv server config st'.
Proof.
  destruct (loop_body_cases config st) as [[-> _]|(sc & _ & Hsc & Hne & ->)];
    [done|].
  intros [= <-] (Hdom & Hran & Hlast & Hkind).
  set (p := conf.ServerConfig.Proxy sc) in *.
  set (k := kind_of (conf.ServerConfig.ProxyType sc)) in *.
  split; [|split; [|split]]; simpl.
  - rewrite dom_insert_L, Hdom, list_to_set_app_L. simpl. set_solver.
  - intros n k' [[_ <-]|[_ H]]%lookup_insert_Some; [apply kind_of_hop_kinds|].
    by eapply Hran.
  - change (server :: proxyList st ++ [p]) with ((server :: proxyList st) ++ [p]).
    by rewrite last_snoc.
  - intros i r n Hr Hn Hlater.
    destruct (decide (i < length (proxyList st))) as [Hi|Hi].
    + rewrite lookup_app_l in Hn by done.
      change (server :: proxyList st ++ [p]) with ((server :: proxyList st) ++ [p])
        in Hr.
      rewrite lookup_app_l in Hr by (simpl; lia).
      assert (n ≠ p) as Hnp.
      { intros ->. apply (Hlater (length (proxyList st))); [done|].
        by rewrite list_lookup_middle. }
      rewrite lookup_insert_ne by done.
      apply (Hkind i r n); [done..|].
      intros j Hj Hjn. apply (Hlater j Hj).
      by rewrite lookup_app_l by (by eapply lookup_lt_Some).
    + assert (i = length (proxyList st)) as ->.
      { apply lookup_lt_Some in Hn. rewrite length_app in Hn. simpl in Hn. lia. }
      rewrite list_lookup_middle in Hn by done. injection Hn as <-.
      rewrite lookup_insert_eq. f_equal.
      assert (r = targetServer st) as ->.
      { rewrite last_lookup in Hlast. simpl in Hlast.
        change (server :: proxyList st ++ [p])
          with ((server :: proxyList st) ++ [p]) in Hr.
        rewrite lookup_app_l in Hr by (simpl; lia). congruence. }
      unfold k, conf.Server_at. by rewrite Hsc.
Qed.

Lemma walk_inv_hop_walk server config fuel : ∀ st st',
  hop_walk fuel config st = Some (inl st') →
  walk_inv server config st → walk_inv server config st'.
Proof.
  induction fuel as [|fuel IH]; intros st st'; simpl; [done|].
  destruct (loop_body config st) as [st1| |err] eqn:Hb.
  - intros H Hinv. apply (IH st1 st' H). by eapply walk_inv_step.
  - by intros [= <-].
  - done.
Qed.

(** C10, amended: when [GetProxyList] returns without error, the kind map is
    defined on exactly the names of the hop list, every kind is one of ssh,
    http, https and socks5, and a hop whose name is not collected again
    farther from the target has the kind of its declared proxy type (that
    type if it is http, https or socks5, and ssh otherwise). *)
Theorem GetProxyList_kind_map (fuel : nat) (server : string)
    (config : conf.Config) (l : list string) (m : gmap string string) :
  GetProxyList fuel server config = Some (l, m, None) →
  dom m = list_to_set l
  ∧ (∀ n k, m !! n = Some k → k ∈ hop_kinds)
  ∧ (∀ i r n,
       hop_at server l i r n →
       (∀ j, i < j → reverse l !! j ≠ Some n) →
       m !! n
       = Some (kind_of (conf.ServerConfig.ProxyType (conf.Server_at config r)))).
Proof.
  unfold GetProxyList.
  destruct (hop_walk fuel config _) as [[st|e]|] eqn:Hw; [|done..].
  intros [= <- <-].
  apply (walk_inv_hop_walk server) in Hw; [|apply walk_inv_init].
  destruct Hw as (Hdom & Hran & _ & Hkind).
  rewrite reverse_slice_reverse. split; [|split].
  - rewrite Hdom. apply list_to_set_perm_L. by rewrite reverse_Permutation.
  - done.
  - unfold hop_at. rewrite reverse_involutive. intros i r n [Hr Hn]. by apply Hkind.
Qed.

Lemma GetProxyList_kind_map_witness :
  dom (<["B" := "socks5"]> (<["A" := "ssh"]> (∅ : gmap string string)))
  = list_to_set ["B"; "A"]
  ∧ (∀ n k, <["B" := "socks5"]> (<["A" := "ssh"]> (∅ : gmap string string)) !! n
            = Some k → k ∈ hop_kinds)
  ∧ (∀ i r n,
       hop_at "web" ["B"; "A"] i r n →
       (∀ j, i < j → reverse ["B"; "A"] !! j ≠ Some n) →
       <["B" := "socks5"]> (<["A" := "ssh"]> (∅ : gmap string string)) !! n
       = Some (kind_of (conf.ServerConfig.ProxyType (conf.Server_at cfg_chain r)))).
Proof.
  apply (GetProxyList_kind_map 3 "web" cfg_chain). vm_compute. reflexivity.
Defined.

(** On [cfg_twice] the name [A] is collected twice, first as the plain
    server that [web] names and then as the socks5 proxy that [A] names;
    the map keeps the second kind for both. *)
Lemma GetProxyList_kind_map_repeated_name :
  ¬ (∀ fuel server config l (m : gmap string string),
       GetProxyList fuel server config = Some (l, m, None) →
       dom m = list_to_set l
       ∧ (∀ n k, m !! n = Some k → k ∈ hop_kinds)
       ∧ (∀ i r n,
            hop_at server l i r n →
            m !! n
            = Some (kind_of (conf.ServerConfig.ProxyType
                               (conf.Server_at config r))))).
Proof.
  intros H.
  destruct (H 3 "web" cfg_twice ["A"; "A"] (<["A" := "socks5"]> ∅))
    as (_ & _ & Hkind); [by vm_compute|].
  specialize (Hkind 0 "web" "A").
  assert (hop_at "web" ["A"; "A"] 0 "web" "A") as Hhop by done.
  apply Hkind in Hhop. vm_compute in Hhop. discriminate Hhop.
Qed.

(** ** Traces of the methods of [Connect] *)

Section Traces.
Context {W : Type} (p : Event → bool).

Lemma count_app (q : Event → bool) evs1 evs2 :
  count q (evs1 ++ evs2) = count q evs1 + count q evs2.
Proof. induction evs1 as [|ev evs1 IH]; simpl; [done|]. rewrite IH. lia. Qed.

Lemma appends_no_ret {A} (a : A) : appends_no (W:=W) p (ret a).
Proof. intros s a' s' [= <- <-]. exists []. by rewrite app_nil_r. Qed.

Lemma appends_no_bind {A B} (m : M W A) (k : A → M W B) :
  appends_no p m → (∀ a, appends_no p (k a)) → appends_no p (bind m k).
Proof.
  intros Hm Hk s b s'. unfold bind.
  destruct (m s) as [a s1| |] eqn:Hms; [|done..].
  intros Hks. destruct (Hm _ _ _ Hms) as (evs1 & -> & H1) ||
    (destruct (Hm _ _ _ Hms) as (evs1 & Ht1 & H1)).
  destruct (Hk a _ _ _ Hks) as (evs2 & Ht2 & H2).
  exists (evs1 ++ evs2). rewrite Ht2, Ht1, app_assoc, count_app. split; [done|lia].
Qed.

Lemma appends_no_ext {A} (ev : Event) (op : W → A * W) :
  p ev = false → appends_no p (ext ev op).
Proof.
  intros Hev s a s'. unfold ext. destruct (op (world s)) as [a' w].
  intros [= <- <-]. exists [ev]. simpl. by rewrite Hev.
Qed.

Lemma appends_no_emit (ev : Event) : p ev = false → appends_no (W:=W) p (emit ev).
Proof. intros Hev s a s' [= <- <-]. exists [ev]. simpl. by rewrite Hev. Qed.

Lemma appends_no_get_self : appends_no (W:=W) p get_self.
Proof. intros s a s' [= <- <-]. exists []. by rewrite app_nil_r. Qed.

Lemma appends_no_modify_self f : appends_no (W:=W) p (modify_self f).
Proof. intros s a s' [= <- <-]. exists []. simpl. by rewrite app_nil_r. Qed.

Lemma appends_no_deref {A} (o : option A) : appends_no (W:=W) p (deref o).
Proof. destruct o; [apply appends_no_ret | done]. Qed.

Lemma appends_no_diverge {A} : appends_no (W:=W) (A:=A) p diverge.
Proof. done. Qed.
End Traces.

Create HintDb trace discriminated.
#[export] Hint Resolve appends_no_ret appends_no_get_self appends_no_modify_self
  appends_no_deref appends_no_diverge : trace.

(** Splits a monadic body along its binds and branches. *)
Ltac trace_step :=
  match goal with
  | |- appends_no _ (bind _ _) => apply appends_no_bind; [|intros ?]
  | |- appends_no _ (ext _ _) => apply appends_no_ext; reflexivity
  | |- appends_no _ (emit _) => apply appends_no_emit; reflexivity
  | |- appends_no _ (match ?x with _ => _ end) => destruct x
  | |- appends_no _ _ => solve [auto with trace]
  end.

Lemma count_le (p q : Event → bool) evs :
  (∀ ev, q ev = true → p ev = true) → count q evs ≤ count p evs.
Proof.
  intros Hqp. induction evs as [|ev evs IH]; simpl; [done|].
  destruct (q ev) eqn:Hq; [|lia]. apply Hqp in Hq. rewrite Hq. lia.
Qed.

Lemma marked_CreateClient ev : is_CreateClient ev = true → marked ev = true.
Proof. unfold marked. by intros ->. Qed.

Lemma marked_NewSession ev : is_NewSession ev = true → marked ev = true.
Proof. unfold marked. intros ->. by rewrite orb_true_r. Qed.

Lemma marked_SendInputWriter ev : is_SendInputWriter ev = true → marked ev = true.
Proof. unfold marked. intros ->. by rewrite orb_true_r. Qed.

Lemma appends_no_weaken {W A} (p q : Event → bool) (m : M W A) :
  (∀ ev, q ev = true → p ev = true) → appends_no p m → appends_no q m.
Proof.
  intros Hqp Hm s a s' Hs. destruct (Hm _ _ _ Hs) as (evs & Ht & Hc).
  exists evs. split; [done|]. pose proof (count_le p q evs Hqp). lia.
Qed.

Section CallTraces.
Context {W : Type} (env : Env W).

Lemma createClientConfig_trace server :
  appends_no marked (createClientConfig env server).
Proof. unfold createClientConfig. repeat trace_step. Qed.

Lemma range_proxyList_trace proxyList : ∀ proxyType v,
  appends_no marked (range_proxyList env proxyList proxyType v).
Proof.
  induction proxyList as [|proxy rest IH]; intros proxyType v; simpl.
  - auto with trace.
  - repeat first [apply createClientConfig_trace | apply IH | trace_step].
Qed.

Lemma createClientOverProxy_trace fuel serverConf sshConf :
  appends_no marked (createClientOverProxy env fuel serverConf sshConf).
Proof.
  unfold createClientOverProxy.
  repeat first [apply range_proxyList_trace | trace_step].
Qed.

(** [CreateClient] records its entry once and nothing else that is marked. *)
Lemma CreateClient_trace fuel s r s' :
  CreateClient env fuel s = Returns r s' →
  ∃ evs, trace s' = trace s ++ EvCreateClient :: evs ∧ count marked evs = 0.
Proof.
  unfold CreateClient. unfold bind at 1. simpl. intros H.
  match type of H with
  | ?m ?s1 = _ => assert (appends_no marked m) as Hm
  end.
  { repeat first [apply createClientConfig_trace
                 | apply createClientOverProxy_trace | trace_step]. }
  destruct (Hm _ _ _ H) as (evs & Ht & Hc).
  exists evs. split; [|done]. rewrite Ht. simpl. by rewrite <- app_assoc.
Qed.
End CallTraces.

Section Returning.
Context {W : Type} (p : Event → bool).

Lemma returns_no_ret {A} (a : A) : returns_no (W:=W) p (ret a).
Proof. intros s. exists a, s, []. by rewrite app_nil_r. Qed.

Lemma returns_no_bind {A B} (m : M W A) (k : A → M W B) :
  returns_no p m → (∀ a, returns_no p (k a)) → returns_no p (bind m k).
Proof.
  intros Hm Hk s. destruct (Hm s) as (a & s1 & evs1 & Hms & Ht1 & H1).
  destruct (Hk a s1) as (b & s2 & evs2 & Hks & Ht2 & H2).
  exists b, s2, (evs1 ++ evs2). unfold bind. rewrite Hms, Hks, Ht2, Ht1.
  rewrite app_assoc, count_app. split; [done|]. split; [done|lia].
Qed.

Lemma returns_no_ext {A} (ev : Event) (op : W → A * W) :
  p ev = false → returns_no p (ext ev op).
Proof.
  intros Hev s. unfold ext. destruct (op (world s)) as [a w].
  eexists a, _, [ev]. simpl. by rewrite Hev.
Qed.

Lemma returns_no_emit (ev : Event) :
  p ev = false → returns_no (W:=W) p (emit ev).
Proof. intros Hev s. eexists tt, _, [ev]. simpl. by rewrite Hev. Qed.

Lemma returns_no_get_self : returns_no (W:=W) p get_self.
Proof. intros s. exists (self s), s, []. by rewrite app_nil_r. Qed.
End Returning.

#[export] Hint Resolve returns_no_ret returns_no_get_self : trace.

Ltac returns_step :=
  match goal with
  | |- returns_no _ (bind _ _) => apply returns_no_bind; [|intros ?]
  | |- returns_no _ (ext _ _) => apply returns_no_ext; reflexivity
  | |- returns_no _ (emit _) => apply returns_no_emit; reflexivity
  | |- returns_no _ (match ?x with _ => _ end) => destruct x
  | |- returns_no _ _ => solve [auto with trace]
  end.

(** ** Liveness probe and rebuild *)

Section Liveness.
Context {W : Type} (env : Env W).

(** C9: with a client at hand, [CheckClientAlive] sends the keepalive
    request once and returns nil exactly when the request returns no
    error or an error whose message is "request failed"; every other
    error is returned as it is. *)
Theorem CheckClientAlive_live_iff (s : St W) (client : xssh.Client) :
  Client (self s) = Some client →
  ∃ r,
    CheckClientAlive env s
    = Returns r (mkSt (self s)
                      (Client_SendRequest env client "keepalive@lssh.com" true (world s)).2
                      (trace s ++ [EvSendRequest client "keepalive@lssh.com" true]))
    ∧ (r = None ↔
         (Client_SendRequest env client "keepalive@lssh.com" true (world s)).1 = None
         ∨ ∃ e, (Client_SendRequest env client "keepalive@lssh.com" true (world s)).1
                = Some e ∧ Error e = "request failed")
    ∧ (r ≠ None →
         r = (Client_SendRequest env client "keepalive@lssh.com" true (world s)).1).
Proof.
  intros Hc. unfold CheckClientAlive, bind, get_self, deref, ext. rewrite Hc.
  simpl. destruct (Client_SendRequest env client _ true (world s)) as [err w].
  simpl. destruct err as [e|].
  - destruct (String.eqb_spec (Error e) "request failed") as [He|Hne].
    + exists None. split; [done|]. split; [|done]. split; [|done]. eauto.
    + exists (Some e). split; [done|]. split; [|done].
      split; [done|]. intros [|(e' & [= <-] & He)]; done.
  - exists None. split; [done|]. split; [|done]. split; auto.
Qed.

(** C5: when the liveness probe of a call to [CreateSession] fails, every
    run of the call that returns has entered [CreateClient] at most once
    after the probe; and if that [CreateClient] returns an error,
    [CreateSession] returns a nil session with that error, in the state
    [CreateClient] left, no [NewSession] having been requested. *)
Theorem CreateSession_rebuilds_once (fuel : nat) (s s0 s1 : St W) (e : error) :
  probe_state env fuel s s0 →
  CheckClientAlive env s0 = Returns (Some e) s1 →
  (∀ r s', CreateSession env fuel s = Returns r s' →
     ∃ evs, trace s' = trace s1 ++ evs ∧ count is_CreateClient evs ≤ 1)
  ∧ (∀ e2 s2, CreateClient env fuel s1 = Returns (Some e2) s2 →
       CreateSession env fuel s = Returns (None, Some e2) s2
       ∧ ∃ evs, trace s2 = trace s1 ++ evs ∧ count is_NewSession evs = 0).
Proof.
  intros Hs0 Hprobe.
  assert (CreateSession env fuel s
          = match CreateClient env fuel s1 with
            | Returns (Some e2) s2 => Returns (None, Some e2) s2
            | Returns None s2 =>
                (let* c := get_self in
                 let* client := deref (Client c) in
                 let* (session, err) :=
                   ext (EvNewSession client) (Client_NewSession env client) in
                 ret (session, err)) s2
            | Panics s2 => Panics s2
            | Diverges => Diverges
            end) as Heq.
  { unfold CreateSession. unfold bind at 1. simpl. unfold bind at 1.
    destruct Hs0 as [[Hc ->]|[Hc Hcc]].
    - destruct (Client (self s)); [|done]. simpl.
      unfold bind at 1. rewrite Hprobe. simpl. unfold bind at 1.
      by destruct (CreateClient env fuel s1) as [[?|] ?| |].
    - rewrite Hc. simpl. rewrite Hcc.
      unfold bind at 1. rewrite Hprobe. simpl. unfold bind at 1.
      by destruct (CreateClient env fuel s1) as [[?|] ?| |]. }
  split.
  - intros r s'. rewrite Heq.
    destruct (CreateClient env fuel s1) as [r2 s2| |] eqn:Hcc; [|done..].
    destruct (CreateClient_trace _ _ _ _ _ Hcc) as (evs & Ht & Hm).
    assert (count is_CreateClient evs = 0) as Hcount.
    { pose proof (count_le marked is_CreateClient evs marked_CreateClient). lia. }
    destruct r2 as [e2|].
    + intros [= <- <-]. exists (EvCreateClient :: evs). simpl. split; [done|lia].
    + unfold bind, get_self, deref, ext.
      destruct (Client (self s2)) as [client|]; [|done]. unfold ret. simpl.
      destruct (Client_NewSession env client (world s2)) as [[session err] w].
      intros [= <- <-].
      exists (EvCreateClient :: evs ++ [EvNewSession client]).
      simpl. rewrite Ht, count_app, Hcount. simpl.
      split; [by rewrite <- app_assoc | lia].
  - intros e2 s2 Hcc. rewrite Heq, Hcc. split; [done|].
    destruct (CreateClient_trace _ _ _ _ _ Hcc) as (evs & Ht & Hm).
    exists (EvCreateClient :: evs). split; [done|]. simpl.
    pose proof (count_le marked is_NewSession evs marked_NewSession). lia.
Qed.
End Liveness.

(** ** Errors of the hops *)

Section HopErrors.
Context {W : Type} (env : Env W).

(** Whatever error [createClientViaProxy] returns for an ssh hop, the
    loop goes on to the next hop with the client it returned. *)
Lemma range_proxyList_ssh_hop (proxy : string) (rest : list string)
    (proxyType : gmap string string) (v : hopvars) (s : St W)
    auth w1 client err w2 :
  isTunnel (default "" (proxyType !! proxy)) = false →
  err_result v = None →
  createSshAuth env proxy (world s) = (auth, None, w1) →
  let proxyConf := conf.Server_at (Conf (self s)) proxy in
  let proxySshConf :=
    Some (xssh.mkClientConfig (conf.ServerConfig.User proxyConf) auth 30) in
  createClientViaProxy env proxyConf proxySshConf
                       (proxyClient v) (proxyDialer v) w1
  = (client, err, w2) →
  range_proxyList env (proxy :: rest) proxyType v s
  = range_proxyList env rest proxyType (mkHopvars client (proxyDialer v) None)
      (mkSt (self s) w2
            (trace s ++ [EvCreateSshAuth proxy;
                         EvViaProxy proxyConf proxySshConf
                                    (proxyClient v) (proxyDialer v)])).
Proof.
  intros Hkind Hv Hauth proxyConf proxySshConf Hvia. simpl.
  unfold isTunnel in Hkind.
  apply orb_false_elim in Hkind as [[Hh Hs]%orb_false_elim H5].
  unfold createClientConfig. unfold bind, get_self, ext, ret. simpl.
  rewrite Hh, Hs, H5. simpl. rewrite Hauth. simpl.
  fold proxyConf. fold proxySshConf. rewrite Hvia. simpl.
  rewrite Hv. by rewrite <- app_assoc.
Qed.
End HopErrors.

(** C1 (the code departs from it): an error of an intermediate ssh hop
    should come back from [CreateClient]. In the world [env_hop_down],
    [createClientViaProxy] answers "connection refused" for the hop [A] of
    [web]; [CreateClient] goes on to dial [web] with a nil hop client and
    returns nil, and [CreateSession] returns a session and a nil error. *)
Theorem CreateClient_drops_hop_error :
  createClientViaProxy env_hop_down (server_at "10.0.0.2" "") admin_conf
                       None None tt
  = (None, Some refused, tt)
  ∧ CreateClient env_hop_down 2 (mkSt (conn_to "web" cfg_jump None) tt [])
    = Returns None
        (mkSt (conn_to "web" cfg_jump (Some (xssh.ClientId 1))) tt
              [EvCreateClient; EvCreateSshAuth "web"; EvCreateSshAuth "A";
               EvViaProxy (server_at "10.0.0.2" "") admin_conf None None;
               EvViaProxy (server_at "10.0.0.1" "A") admin_conf None None])
  ∧ ∃ s', CreateSession env_hop_down 2 (mkSt (conn_to "web" cfg_jump None) tt [])
          = Returns (Some (xssh.SessionId 0), None) s'.
Proof.
  split; [done|]. split; [by vm_compute|]. eexists. by vm_compute.
Qed.

(** ** The interactive terminal *)

Section Terminal.
Context {W : Type} (env : Env W).

Lemma runLocalRcShell_returns session :
  returns_no is_raw_or_restore (runLocalRcShell env session).
Proof. unfold runLocalRcShell. repeat returns_step. Qed.

(** C8: when [terminal.MakeRaw] succeeds, [ConTerm] returns, whatever the
    size query, the pty request, the start of the shell (plain or with the
    local rc file) and the wait answer; and the last thing it does is
    [terminal.Restore] with the state [MakeRaw] returned, the terminal
    mode being touched nowhere in between. *)
Theorem ConTerm_restores_terminal (session : xssh.Session) (s : St W)
    (state : option TermState) (w1 : W) :
  terminal_MakeRaw env (os_Stdin_Fd env) (world s) = (state, None, w1) →
  ∃ r s' evs,
    ConTerm env session s = Returns r s'
    ∧ trace s'
      = trace s ++ [EvMakeRaw (os_Stdin_Fd env)] ++ evs
                ++ [EvRestore (os_Stdin_Fd env) state]
    ∧ count is_raw_or_restore evs = 0.
Proof.
  intros Hraw. unfold ConTerm. unfold bind at 1. unfold ext at 1.
  rewrite Hraw. simpl. unfold with_defer.
  match goal with
  | |- context [match ?body ?s1 with _ => _ end] =>
      assert (returns_no is_raw_or_restore body) as Hbody
  end.
  { repeat first [apply runLocalRcShell_returns | returns_step]. }
  match goal with
  | |- context [match ?body ?s1 with _ => _ end] =>
      destruct (Hbody s1) as (r & s2 & evs & -> & Ht & Hc)
  end.
  unfold bind, ext. destruct (terminal_Restore env _ state (world s2)) as [e w].
  simpl. eexists r, _, evs. split; [done|]. split; [|done]. simpl.
  rewrite Ht. simpl. by rewrite <- !app_assoc.
Qed.
End Terminal.

(** ** Publishing input handles *)

Lemma published_app evs1 evs2 :
  published (evs1 ++ evs2) = published evs1 ++ published evs2.
Proof. apply omap_app. Qed.

Lemma published_none evs : count is_SendInputWriter evs = 0 → published evs = [].
Proof.
  induction evs as [|ev evs IH]; simpl; [done|].
  destruct ev; simpl; try done; intros; apply IH; lia.
Qed.

Section Publishing.
Context {W : Type} (env : Env W).

Lemma CheckClientAlive_trace : appends_no marked (CheckClientAlive env).
Proof. unfold CheckClientAlive. repeat trace_step. Qed.

Lemma CreateClient_appends fuel : appends_no is_SendInputWriter (CreateClient env fuel).
Proof.
  intros s r s' H. destruct (CreateClient_trace _ _ _ _ _ H) as (evs & Ht & Hc).
  exists (EvCreateClient :: evs). split; [done|]. simpl.
  pose proof (count_le marked is_SendInputWriter evs marked_SendInputWriter). lia.
Qed.

Lemma CreateSession_trace fuel :
  appends_no is_SendInputWriter (CreateSession env fuel).
Proof.
  unfold CreateSession.
  repeat first
    [ apply CreateClient_appends
    | apply (appends_no_weaken marked), CheckClientAlive_trace;
      apply marked_SendInputWriter
    | trace_step ].
Qed.

(** What a host task publishes: one handle when its session is created
    and input is broadcast, and none otherwise. *)
Lemma cmdRun_publishes (fuel : nat) (r : Run) (serverListIndex : nat)
    (s s' s1 : St W) session err :
  CreateSession env fuel s = Returns (session, err) s1 →
  cmdRun env fuel r serverListIndex s = Returns tt s' →
  ∃ evs, trace s' = trace s ++ evs
         ∧ length (published evs)
           = if is_nil err && broadcast_active r then 1 else 0.
Proof.
  intros Hcs. unfold cmdRun. unfold bind at 1. rewrite Hcs.
  destruct (CreateSession_trace fuel _ _ _ Hcs) as (evs0 & Ht0 & Hc0).
  apply published_none in Hc0.
  unfold bind at 1. simpl. destruct err as [e|]; simpl.
  - unfold bind, emit. simpl. intros [= <-]. simpl.
    rewrite Ht0, <- !app_assoc. eexists. split; [reflexivity|].
    rewrite published_app, Hc0. reflexivity.
  - unfold broadcast_active.
    destruct session as [sess|].
    2:{ unfold bind, deref, emit, ext, ret, panic.
        destruct (IsX11 r || X11 (self s1)); [done|]. simpl.
        destruct (0 <? length (StdinData r)); [done|].
        destruct (Run_IsParallel r || (length (ServerList r) =? 1)); done. }
    unfold bind, deref, emit, ext, ret. simpl.
    destruct (IsX11 r || X11 (self s1)); simpl;
      [destruct (Connect_X11Forwarder env sess (world s1)) as [[] wx]; simpl|];
      destruct (length (StdinData r)) as [|n] eqn:Hlen; simpl;
      destruct (Run_IsParallel r || (length (ServerList r) =? 1)); simpl;
      try (destruct (Session_StdinPipe env sess _) as [[writer e] wp]; simpl);
      intros [= <-]; simpl; rewrite Ht0, <- !app_assoc;
      (eexists; split; [reflexivity|]);
      rewrite published_app, Hc0; reflexivity.
Qed.
End Publishing.

(** C6 (the code departs from it): with input broadcast active, a host task
    should publish one handle even when its session cannot be created. For
    the single host [db], which cannot be reached, [cmdRun] reports the
    error, closes the output channel and returns without a send on
    [inputWriter]; the collector of [cmd] stays in its first receive. *)
Theorem cmdRun_failed_session_publishes_nothing :
  broadcast_active run_one = true
  ∧ (∃ s', CreateSession env_unreachable 1 (mkSt (conn_to "db" cfg_direct None) tt [])
           = Returns (None, Some unreachable) s')
  ∧ ∃ s', cmdRun env_unreachable 1 run_one 0 (mkSt (conn_to "db" cfg_direct None) tt [])
          = Returns tt s'
          ∧ trace s' = [EvCreateClient; EvCreateSshAuth "db";
                        EvDial "tcp" "10.0.0.3:22" admin_conf;
                        EvStderr "db" unreachable; EvCloseOutputChan]
          ∧ published (trace s') = []
          ∧ collect_writers run_one (published (trace s')) = None.
Proof.
  split; [done|]. split; [eexists; by vm_compute|].
  eexists. split; [by vm_compute|]. simpl. done.
Qed.

(** ** The output pump *)

Lemma ReadBytes_split delim buf line rest err :
  ReadBytes delim buf = (line, rest, err) →
  buf = line ++ rest
  ∧ (err = None → line ≠ [])
  ∧ (err ≠ None → err = Some io_EOF ∧ rest = [] ∧ delim ∉ line).
Proof.
  revert line rest err.
  induction buf as [|b buf IH]; intros line rest err; simpl.
  - intros [= <- <- <-]. split; [done|]. split; [done|].
    intros _. split; [done|]. split; [done|]. apply not_elem_of_nil.
  - destruct (Byte.eqb b delim) eqn:Hb.
    + intros [= <- <- <-]. done.
    + destruct (ReadBytes delim buf) as [[line' rest'] err'].
      intros [= <- <- <-].
      destruct (IH _ _ _ eq_refl) as (-> & _ & Heof). split; [done|].
      split; [done|]. intros Herr.
      destruct (Heof Herr) as (-> & -> & Hnot). split; [done|]. split; [done|].
      intros [->|Hin]%elem_of_cons; [|done].
      by rewrite (Byte.byte_dec_lb eq_refl) in Hb.
Qed.

Lemma last_check_loop_split n : ∀ buf sent dropped,
  length buf < n →
  last_check_loop n buf = (sent, dropped) →
  buf = concat sent ++ dropped ∧ newline ∉ dropped.
Proof.
  induction n as [|n IH]; intros buf sent dropped Hn; [lia|]. simpl.
  destruct (ReadBytes newline buf) as [[line rest] err] eqn:Hr.
  apply ReadBytes_split in Hr as (-> & Hok & Heof).
  case_bool_decide as Herr.
  - destruct (last_check_loop n rest) as [sent' dropped'] eqn:Hl.
    intros [= <- <-].
    assert (line ≠ []) as Hline.
    { destruct err as [e|]; [|by apply Hok].
      destruct Heof as (He & _); [done|]. congruence. }
    apply IH in Hl as [-> Hnot].
    + simpl. by rewrite app_assoc.
    + rewrite length_app in Hn. destruct line; [done|]. simpl in Hn. lia.
  - intros [= <- <-].
    destruct Heof as (_ & -> & Hnot); [by rewrite Herr|].
    by rewrite app_nil_r.
Qed.

Lemma last_check_split buf sent dropped :
  last_check buf = (sent, dropped) →
  buf = concat sent ++ dropped ∧ newline ∉ dropped.
Proof.
  unfold last_check. destruct (0 <? length buf) eqn:Hlen.
  - apply last_check_loop_split. lia.
  - intros [= <- <-]. apply Nat.ltb_ge in Hlen. destruct buf; simpl in *; [|lia].
    split; [done|]. apply not_elem_of_nil.
Qed.

Lemma pump_inv_step output p t : pump_inv output p → pump_inv output (step p t).
Proof.
  intros Hinv. pose proof Hinv as (lost & Hout & Hlost & Hrun & Hexit & Hret).
  destruct t; simpl.
  - exists lost. simpl. split; [|split; [done|split; [done|split]]].
    + by rewrite <- (app_assoc (outputBuf p)), take_drop.
    + intros He. rewrite (Hexit He). by rewrite drop_nil.
    + intros Hr. destruct (Hret Hr) as [-> ->]. by rewrite take_nil, drop_nil.
  - destruct (to_write p) as [|b tw] eqn:Htw; [|exact Hinv].
    exists lost. simpl. split; [done|]. split; [done|].
    split; [done|]. split; [done|]. intros H. by destruct (Hret H).
  - destruct (at_ p) eqn:Hat; try exact Hinv.
    exists lost. simpl. split; [done|]. split; [done|].
    split; [by intros _; apply Hrun|]. split; done.
  - destruct (at_ p) eqn:Hat; [| |exact Hinv].
    + destruct (0 <? length (outputBuf p)).
      * destruct (ReadBytes newline (outputBuf p)) as [[line rest] err] eqn:Hr.
        apply ReadBytes_split in Hr as (Hbuf & _).
        exists lost. simpl. split; [|done].
        rewrite Hout, Hbuf, concat_app. simpl.
        rewrite (Hrun ltac:(done)). simpl.
        by rewrite app_nil_r, <- !app_assoc.
      * exists lost. simpl. split; [done|]. split; [done|].
        split; [by intros _; apply Hrun|]. split; done.
    + destruct (isExit p) eqn:He; [|exact Hinv].
      destruct (last_check (outputBuf p)) as [sent dropped] eqn:Hl.
      apply last_check_split in Hl as [Hbuf Hnot].
      exists dropped. simpl. rewrite (Hrun ltac:(done)) in Hout.
      rewrite (Hexit eq_refl) in *. split.
      { rewrite Hout, Hbuf, concat_app. simpl. by rewrite !app_nil_r, <- app_assoc. }
      split; [done|]. split; [done|]. split; done.
Qed.

Lemma pump_inv_run output schedule : pump_inv output (RunCmdWithOutput output schedule).
Proof.
  unfold RunCmdWithOutput.
  assert (pump_inv output (mkPump [] [] output false AtLen)) as Hinit.
  { exists []. simpl. split; [done|]. split; [apply not_elem_of_nil|]. done. }
  revert Hinit. generalize (mkPump [] [] output false AtLen).
  induction schedule as [|t schedule IH]; intros p Hp; simpl; [done|].
  apply IH. by apply pump_inv_step.
Qed.

(** What the output channel has carried when [RunCmdWithOutput] returns:
    all of the output but a last piece that holds no line terminator. *)
Lemma RunCmdWithOutput_sends_all_but_tail output schedule :
  at_ (RunCmdWithOutput output schedule) = Returned →
  ∃ lost, output = concat (outputChan (RunCmdWithOutput output schedule)) ++ lost
          ∧ newline ∉ lost.
Proof.
  intros Hat. destruct (pump_inv_run output schedule)
    as (lost & Hout & Hlost & _ & _ & Hret).
  destruct (Hret Hat) as [Hb Hw]. exists lost. rewrite Hb, Hw in Hout.
  by rewrite !app_nil_r in Hout.
Qed.

(** Output that ends with a line terminator arrives whole. *)
Lemma RunCmdWithOutput_terminated_output body schedule :
  at_ (RunCmdWithOutput (body ++ [newline]) schedule) = Returned →
  concat (outputChan (RunCmdWithOutput (body ++ [newline]) schedule))
  = body ++ [newline].
Proof.
  intros Hat.
  destruct (RunCmdWithOutput_sends_all_but_tail _ _ Hat) as (lost & Hout & Hnot).
  destruct (decide (lost = [])) as [->|Hne]; [by rewrite app_nil_r in Hout|].
  destruct (exists_last Hne) as (lost' & b & ->).
  rewrite app_assoc in Hout. apply app_inj_tail in Hout as [_ <-].
  destruct Hnot. apply elem_of_app. right. apply elem_of_cons. by left.
Qed.

(** C3 (the code departs from it): the chunks sent should add up to the
    whole output also when it does not end with a line terminator. For the
    output [hi] that is written, with [RunCmd] returning, while the loop
    sits in its [select], the last check reads [hi] with [io.EOF] and
    sends nothing. *)
Theorem RunCmdWithOutput_drops_unterminated_tail :
  at_ (RunCmdWithOutput (list_byte_of_string "hi") [Step; Append 2; Exit; Step])
  = Returned
  ∧ outputChan (RunCmdWithOutput (list_byte_of_string "hi")
                                 [Step; Append 2; Exit; Step]) = []
  ∧ concat (outputChan (RunCmdWithOutput (list_byte_of_string "hi")
                                         [Step; Append 2; Exit; Step]))
    ≠ list_byte_of_string "hi".
Proof. split; [done|]. split; [done|]. by vm_compute. Qed.

(** ** The properties above at sample worlds *)

Lemma CheckClientAlive_live_iff_witness :
  Client (self st_connected) = Some (xssh.ClientId 7)
  ∧ ∃ r,
      CheckClientAlive env_unsupported st_connected
      = Returns r
          (mkSt (self st_connected)
                (Client_SendRequest env_unsupported (xssh.ClientId 7)
                   "keepalive@lssh.com" true (world st_connected)).2
                (trace st_connected
                 ++ [EvSendRequest (xssh.ClientId 7) "keepalive@lssh.com" true]))
      ∧ (r = None ↔
           (Client_SendRequest env_unsupported (xssh.ClientId 7)
              "keepalive@lssh.com" true (world st_connected)).1 = None
           ∨ ∃ e, (Client_SendRequest env_unsupported (xssh.ClientId 7)
                     "keepalive@lssh.com" true (world st_connected)).1 = Some e
                  ∧ Error e = "request failed")
      ∧ (r ≠ None →
           r = (Client_SendRequest env_unsupported (xssh.ClientId 7)
                  "keepalive@lssh.com" true (world st_connected)).1).
Proof.
  split; [reflexivity|].
  apply (CheckClientAlive_live_iff env_unsupported st_connected (xssh.ClientId 7)).
  reflexivity.
Defined.

Lemma CreateSession_rebuilds_once_witness :
  probe_state env_stale 1 st_connected st_connected
  ∧ CheckClientAlive env_stale st_connected
    = Returns (Some io_EOF)
        (mkSt (self st_connected) tt
              [EvSendRequest (xssh.ClientId 7) "keepalive@lssh.com" true])
  ∧ (∀ r s', CreateSession env_stale 1 st_connected = Returns r s' →
       ∃ evs, trace s'
              = [EvSendRequest (xssh.ClientId 7) "keepalive@lssh.com" true] ++ evs
              ∧ count is_CreateClient evs ≤ 1)
  ∧ (∀ e2 s2,
       CreateClient env_stale 1
         (mkSt (self st_connected) tt
               [EvSendRequest (xssh.ClientId 7) "keepalive@lssh.com" true])
       = Returns (Some e2) s2 →
       CreateSession env_stale 1 st_connected = Returns (None, Some e2) s2
       ∧ ∃ evs, trace s2
                = [EvSendRequest (xssh.ClientId 7) "keepalive@lssh.com" true] ++ evs
                ∧ count is_NewSession evs = 0).
Proof.
  assert (probe_state env_stale 1 st_connected st_connected) as Hs
    by (left; split; [discriminate | reflexivity]).
  split; [exact Hs|]. split; [reflexivity|].
  apply (CreateSession_rebuilds_once env_stale 1 st_connected st_connected
           (mkSt (self st_connected) tt
                 [EvSendRequest (xssh.ClientId 7) "keepalive@lssh.com" true])
           io_EOF Hs).
  reflexivity.
Defined.

Lemma ConTerm_restores_terminal_witness :
  terminal_MakeRaw env_no_pty (os_Stdin_Fd env_no_pty) (world st_connected)
  = (Some (TermStateId 0), None, tt)
  ∧ ∃ r s' evs,
      ConTerm env_no_pty (xssh.SessionId 0) st_connected = Returns r s'
      ∧ trace s'
        = trace st_connected ++ [EvMakeRaw (os_Stdin_Fd env_no_pty)] ++ evs
          ++ [EvRestore (os_Stdin_Fd env_no_pty) (Some (TermStateId 0))]
      ∧ count is_raw_or_restore evs = 0.
Proof.
  split; [reflexivity|].
  apply (ConTerm_restores_terminal env_no_pty (xssh.SessionId 0) st_connected
           (Some (TermStateId 0)) tt).
  reflexivity.
Defined.

(** The call of [CreateSession] on the stale connection, in full. *)
Example CreateSession_stale :
  CreateSession env_stale 1 st_connected
  = Returns (None, Some unreachable)
      (mkSt (self st_connected) tt
            [EvSendRequest (xssh.ClientId 7) "keepalive@lssh.com" true;
             EvCreateClient; EvCreateSshAuth "db";
             EvDial "tcp" "10.0.0.3:22" admin_conf]).
Proof. reflexivity. Qed.

(** The run of [ConTerm] whose pty request is refused, in full. *)
Example ConTerm_no_pty :
  ConTerm env_no_pty (xssh.SessionId 0) st_connected
  = Returns (Some (errors_New "ssh: pty-req failed"))
      (mkSt (self st_connected) tt
            [EvMakeRaw 0; EvGetSize 0; EvGetenv "TERM";
             EvRequestPty (xssh.SessionId 0) "xterm" 24 80;
             EvRestore 0 (Some (TermStateId 0))]).
Proof. reflexivity. Qed.

(** * Further properties *)

(** ** More on the hop walk *)

Lemma isTunnel_kind_of t : isTunnel (kind_of t) = isTunnel t.
Proof. unfold kind_of. by destruct (isTunnel t) eqn:Ht. Qed.

Lemma loop_body_ctl config st :
  match ctl_next config (targetServer st) (isTunnel (targetType st)) with
  | None => loop_body config st = Break
  | Some (t', tun') =>
      ∃ st', loop_body config st = Next st'
             ∧ targetServer st' = t'
             ∧ isTunnel (targetType st') = tun'
             ∧ proxyList st' = proxyList st ++ [t']
  end.
Proof.
  unfold ctl_next.
  destruct (loop_body_cases config st)
    as [[Hb [Ht|Hno]]|(sc & Ht & Hsc & Hne & Hb)].
  - by rewrite Ht.
  - destruct (isTunnel (targetType st)); [done|].
    destruct (conf.Server config !! targetServer st) as [sc|] eqn:Hsc; [|done].
    destruct (String.eqb_spec (conf.ServerConfig.Proxy sc) "") as [He|Hne];
      [done|].
    destruct Hno. by exists (conf.ServerConfig.Proxy sc), sc.
  - rewrite Ht, Hsc.
    destruct (String.eqb_spec (conf.ServerConfig.Proxy sc) "") as [He|_];
      [done|].
    eexists. split; [exact Hb|]. simpl. by rewrite isTunnel_kind_of.
Qed.

Lemma hop_walk_trail fuel : ∀ config st,
  match trail fuel config (targetServer st) (isTunnel (targetType st)) with
  | None => hop_walk fuel config st = None
  | Some hops =>
      ∃ st', hop_walk fuel config st = Some (inl st')
             ∧ proxyList st' = proxyList st ++ hops
  end.
Proof.
  induction fuel as [|fuel IH]; intros config st; simpl; [done|].
  pose proof (loop_body_ctl config st) as Hctl.
  destruct (ctl_next config _ _) as [[t' tun']|].
  - destruct Hctl as (st1 & -> & <- & <- & Hpl).
    specialize (IH config st1).
    destruct (trail fuel config _ _) as [hops|]; simpl; [|done].
    destruct IH as (st' & -> & Hpl'). exists st'. split; [done|].
    by rewrite Hpl', Hpl, <- app_assoc.
  - rewrite Hctl. exists st. by rewrite app_nil_r.
Qed.

Lemma trail_mono fuel : ∀ fuel' config t tun hops,
  trail fuel config t tun = Some hops → fuel ≤ fuel' →
  trail fuel' config t tun = Some hops.
Proof.
  induction fuel as [|fuel IH]; intros fuel' config t tun hops; simpl; [done|].
  intros H Hle. destruct fuel' as [|fuel']; [lia|]. simpl.
  destruct (ctl_next config t tun) as [[t' tun']|]; [|done].
  destruct (trail fuel config t' tun') as [hops'|] eqn:Ht; [|done].
  rewrite (IH fuel' _ _ _ _ Ht) by lia. done.
Qed.

Lemma trail_deterministic fuel fuel' config t tun hops hops' :
  trail fuel config t tun = Some hops →
  trail fuel' config t tun = Some hops' → hops = hops'.
Proof.
  intros H H'. destruct (Nat.le_ge_cases fuel fuel') as [Hle|Hle].
  - apply (trail_mono _ _ _ _ _ _ H) in Hle. congruence.
  - apply (trail_mono _ _ _ _ _ _ H') in Hle. congruence.
Qed.

(** The fuel that a trail needs is one more than its length. *)
Lemma trail_fuel fuel : ∀ config t tun hops,
  trail fuel config t tun = Some hops →
  trail (S (length hops)) config t tun = Some hops.
Proof.
  induction fuel as [|fuel IH]; intros config t tun hops; [done|].
  simpl. destruct (ctl_next config t tun) as [[t' tun']|]; [|by intros [= <-]].
  destruct (trail fuel config t' tun') as [hops'|] eqn:Ht; [|done].
  intros [= <-]. apply IH in Ht. simpl in *.
  destruct (ctl_next config t' tun') as [[t'' tun'']|]; by rewrite Ht.
Qed.

(** The entries the walk passes through: the start and every name
    collected but the last. A name among them was passed with a kind that
    is no tunnel, and from there the walk collects the rest of the trail. *)
Lemma trail_suffix fuel : ∀ config t tun h1 x h2,
  trail fuel config t tun = Some (h1 ++ x :: h2) → h2 ≠ [] →
  trail fuel config x false = Some h2.
Proof.
  induction fuel as [|fuel IH]; intros config t tun h1 x h2; [done|].
  intros H Hne. simpl in H.
  destruct (ctl_next config t tun) as [[t' tun']|] eqn:Hc;
    [|by destruct h1].
  destruct (trail fuel config t' tun') as [hops'|] eqn:Ht; [|done].
  injection H as H. destruct h1 as [|y h1]; simpl in H.
  - injection H as -> ->. apply (trail_mono fuel); [|lia].
    destruct tun'; [|done]. destruct fuel; [done|]. simpl in Ht.
    injection Ht as <-. done.
  - injection H as -> ->. apply (trail_mono fuel); [|lia].
    by eapply IH.
Qed.

Lemma trail_passes_once fuel : ∀ config t tun hops,
  trail fuel config t tun = Some hops →
  NoDup (take (length hops) (t :: hops))
  ∧ ∀ r, r ∈ take (length hops) (t :: hops) → r ∈ dom (conf.Server config).
Proof.
  induction fuel as [|fuel IH]; intros config t tun hops; [done|].
  intros H. pose proof H as Htrail. simpl in H.
  destruct (ctl_next config t tun) as [[t' tun']|] eqn:Hc.
  2:{ injection H as <-. simpl. split; [constructor|].
      intros r Hr. by apply elem_of_nil in Hr. }
  destruct (trail fuel config t' tun') as [hops'|] eqn:Ht; [|done].
  injection H as <-. simpl.
  destruct (IH _ _ _ _ Ht) as [Hnd Hdom].
  assert (tun = false) as -> by (unfold ctl_next in Hc; by destruct tun).
  split.
  - constructor; [|done]. intros Hin.
    apply list_elem_of_lookup in Hin as [j Hj].
    apply lookup_take_Some in Hj as [Hj Hlt].
    apply list_elem_of_split_length in Hj as (h1 & h2 & Heq & Hlen).
    assert (h2 ≠ []) as Hne.
    { intros ->. apply (f_equal length) in Heq. rewrite length_app in Heq.
      simpl in Heq. lia. }
    rewrite Heq in Htrail.
    pose proof (trail_suffix _ _ _ _ _ _ _ Htrail Hne) as Hsuf.
    rewrite Hsuf in Htrail. injection Htrail as Habs.
    apply (f_equal length) in Habs. rewrite length_app in Habs.
    simpl in Habs. lia.
  - intros r [->|Hr]%elem_of_cons; [|by apply Hdom].
    unfold ctl_next in Hc. apply elem_of_dom.
    by destruct (conf.Server config !! t).
Qed.

Lemma GetProxyList_trail fuel server config l m e :
  GetProxyList fuel server config = Some (l, m, e) →
  ∃ hops, trail fuel config server false = Some hops
          ∧ l = reverse hops ∧ e = None.
Proof.
  unfold GetProxyList.
  pose proof (hop_walk_trail fuel config (mkWalk server "" [] ∅)) as Ht.
  simpl in Ht. change (isTunnel "") with false in Ht.
  destruct (trail fuel config server false) as [hops|].
  - destruct Ht as (st' & -> & Hpl). intros [= <- <- <-].
    exists hops. by rewrite reverse_slice_reverse, Hpl.
  - by rewrite Ht.
Qed.

Lemma GetProxyList_trail_bounded fuel server config l m e :
  GetProxyList fuel server config = Some (l, m, e) →
  ∃ hops, trail fuel config server false = Some hops
          ∧ l = reverse hops ∧ e = None
          ∧ length hops ≤ size (conf.Server config).
Proof.
  intros (hops & Ht & -> & ->)%GetProxyList_trail.
  exists hops. split; [done|]. split; [done|]. split; [done|].
  destruct (trail_passes_once _ _ _ _ _ Ht) as [Hnd Hdom].
  assert (length (take (length hops) (server :: hops)) = length hops) as <-.
  { rewrite length_take. simpl. lia. }
  rewrite <- size_dom.
  rewrite <- (size_list_to_set (C := gset string)) by done.
  apply subseteq_size. intros r Hr. apply elem_of_list_to_set in Hr. by apply Hdom.
Qed.

(** X4: a hop list that is returned has at most as many hops as there are
    server entries (the walk passes through no entry twice). *)
Theorem GetProxyList_hops_bounded (fuel : nat) (server : string)
    (config : conf.Config) l m e :
  GetProxyList fuel server config = Some (l, m, e) →
  length l ≤ size (conf.Server config).
Proof.
  intros (hops & _ & -> & _ & Hlen)%GetProxyList_trail_bounded.
  by rewrite length_reverse.
Qed.

Lemma GetProxyList_hops_bounded_witness :
  length ["B"; "A"] ≤ size (conf.Server cfg_chain).
Proof.
  apply (GetProxyList_hops_bounded 3 "web" cfg_chain ["B"; "A"]
           (<["B" := "socks5"]> (<["A" := "ssh"]> ∅)) None).
  vm_compute. reflexivity.
Defined.

(** X5: if the walk ever leaves its loop, it does so within as many
    iterations as there are server entries, plus one; a walk that is still
    running then runs for ever. *)
Theorem GetProxyList_fuel_enough (server : string) (config : conf.Config) :
  (∀ fuel r, GetProxyList fuel server config = Some r →
     GetProxyList (S (size (conf.Server config))) server config = Some r)
  ∧ (GetProxyList (S (size (conf.Server config))) server config = None →
     ∀ fuel, GetProxyList fuel server config = None).
Proof.
  assert (∀ fuel r, GetProxyList fuel server config = Some r →
     GetProxyList (S (size (conf.Server config))) server config = Some r) as H.
  { intros fuel [[l m] e] Hr.
    pose proof Hr as (hops & Ht & -> & -> & Hlen)%GetProxyList_trail_bounded.
    apply trail_fuel in Ht.
    pose proof (hop_walk_trail (S (length hops)) config (mkWalk server "" [] ∅))
      as Hw.
    simpl targetServer in Hw. simpl targetType in Hw.
    change (isTunnel "") with false in Hw. rewrite Ht in Hw.
    destruct Hw as (st' & Hw & _).
    assert (∃ r', GetProxyList (S (length hops)) server config = Some r')
      as [r' Hr'].
    { unfold GetProxyList. rewrite Hw. eauto. }
    rewrite (GetProxyList_deterministic _ _ _ _ _ _ Hr Hr').
    apply (GetProxyList_mono _ _ _ _ _ Hr'). lia. }
  split; [exact H|].
  intros Hnone fuel.
  destruct (GetProxyList fuel server config) as [r|] eqn:Hr; [|done].
  apply H in Hr. congruence.
Qed.

Lemma GetProxyList_fuel_enough_witness :
  GetProxyList (S (size (conf.Server cfg_cycle))) "a" cfg_cycle = None
  ∧ ∀ fuel, GetProxyList fuel "a" cfg_cycle = None.
Proof.
  split; [by vm_compute|].
  apply (proj2 (GetProxyList_fuel_enough "a" cfg_cycle)). by vm_compute.
Defined.

(** *** The chain of references *)

Lemma walk_chain_init server config : walk_chain server config (mkWalk server "" [] ∅).
Proof.
  split; [done|]. split; [|done]. intros i r n _ H. simpl in H.
  by rewrite lookup_nil in H.
Qed.

Lemma walk_chain_step server config st st' :
  loop_body config st = Next st' →
  walk_chain server config st → walk_chain server config st'.
Proof.
  destruct (loop_body_cases config st) as [[-> _]|(sc & Htun & Hsc & Hne & ->)];
    [done|].
  intros [= <-] (Hlast & Hchain & Hkind).
  set (p := conf.ServerConfig.Proxy sc) in *.
  assert ((server :: proxyList st) !! length (proxyList st)
          = Some (targetServer st)) as Htarget.
  { rewrite last_lookup in Hlast. by simpl in Hlast. }
  split; [|split]; simpl.
  - change (server :: proxyList st ++ [p]) with ((server :: proxyList st) ++ [p]).
    by rewrite last_snoc.
  - intros i r n Hr Hn.
    change (server :: proxyList st ++ [p]) with ((server :: proxyList st) ++ [p])
      in Hr.
    destruct (decide (i < length (proxyList st))) as [Hi|Hi].
    + rewrite lookup_app_l in Hn by done.
      rewrite lookup_app_l in Hr by (simpl; lia).
      destruct (Hchain i r n Hr Hn) as [Href Hnt]. split; [done|].
      intros _. destruct (decide (i + 1 < length (proxyList st))) as [Hlt|Hge];
        [by apply Hnt|].
      assert (i = length (proxyList st) - 1) as -> by lia.
      destruct (last (proxyList st)) as [x|] eqn:Hl.
      * destruct Hkind as (r' & Hr' & Hty). rewrite Hr in Hr'.
        injection Hr' as <-. rewrite Hty, isTunnel_kind_of in Htun. done.
      * apply last_None in Hl. rewrite Hl in Hi. simpl in Hi. lia.
    + assert (i = length (proxyList st)) as ->.
      { apply lookup_lt_Some in Hn. rewrite length_app in Hn. simpl in Hn. lia. }
      rewrite lookup_app_l in Hr by (simpl; lia).
      rewrite list_lookup_middle in Hn by done. injection Hn as <-.
      rewrite Htarget in Hr. injection Hr as <-.
      split; [by exists sc|]. rewrite length_app. simpl. lia.
  - rewrite last_snoc. exists (targetServer st). rewrite length_app. simpl.
    replace (length (proxyList st) + 1 - 1) with (length (proxyList st)) by lia.
    change (server :: proxyList st ++ [p]) with ((server :: proxyList st) ++ [p]).
    rewrite lookup_app_l by (simpl; lia). split; [done|].
    unfold conf.Server_at. by rewrite Hsc.
Qed.

Lemma walk_chain_hop_walk server config fuel : ∀ st st',
  hop_walk fuel config st = Some (inl st') →
  walk_chain server config st →
  walk_chain server config st' ∧ loop_body config st' = Break.
Proof.
  induction fuel as [|fuel IH]; intros st st'; simpl; [done|].
  destruct (loop_body config st) as [st1| |err] eqn:Hb.
  - intros H Hinv. apply (IH st1 st' H). by eapply walk_chain_step.
  - by intros [= <-].
  - done.
Qed.

(** X2: every hop of the list returned is the non-empty proxy reference of
    the server entry before it in the walk (the target's entry for the hop
    next to the target), and every hop that has another one dialled before
    it was declared with a kind that is no tunnel. *)
Theorem GetProxyList_hops_follow_references (fuel : nat) (server : string)
    (config : conf.Config) l m e (i : nat) (r n : string) :
  GetProxyList fuel server config = Some (l, m, e) →
  hop_at server l i r n →
  (∃ sc, conf.Server config !! r = Some sc ∧ conf.ServerConfig.Proxy sc = n)
  ∧ n ≠ ""
  ∧ (i + 1 < length l →
     isTunnel (conf.ServerConfig.ProxyType (conf.Server_at config r)) = false).
Proof.
  unfold GetProxyList.
  destruct (hop_walk fuel config _) as [[st|err]|] eqn:Hw;
    [|by apply hop_walk_never_fails in Hw|done].
  intros [= <- <- <-].
  apply (walk_chain_hop_walk server) in Hw as [(_ & Hchain & _) _];
    [|apply walk_chain_init].
  unfold hop_at. rewrite reverse_slice_reverse, reverse_involutive, length_reverse.
  intros [Hr Hn]. destruct (Hchain i r n Hr Hn) as [(sc & Hsc & Hp & Hne) Hnt].
  split; [by exists sc|]. split; [done|]. exact Hnt.
Qed.

Lemma GetProxyList_hops_follow_references_witness :
  (∃ sc, conf.Server cfg_chain !! "web" = Some sc
         ∧ conf.ServerConfig.Proxy sc = "A")
  ∧ "A" ≠ ""
  ∧ (0 + 1 < length ["B"; "A"] →
     isTunnel (conf.ServerConfig.ProxyType (conf.Server_at cfg_chain "web"))
     = false).
Proof.
  apply (GetProxyList_hops_follow_references 3 "web" cfg_chain ["B"; "A"]
           (<["B" := "socks5"]> (<["A" := "ssh"]> ∅)) None 0 "web" "A").
  - vm_compute. reflexivity.
  - split; reflexivity.
Defined.

Lemma ctl_next_None config t :
  ctl_next config t false = None
  ↔ conf.ServerConfig.Proxy (conf.Server_at config t) = "".
Proof.
  unfold ctl_next, conf.Server_at.
  destruct (conf.Server config !! t) as [sc|]; simpl; [|done].
  by destruct (String.eqb_spec (conf.ServerConfig.Proxy sc) "").
Qed.

(** X1: a target whose entry names no proxy, or that has no entry at all,
    is dialled directly: the hop list and the kind map are empty and the
    error is nil; and only such a target gets an empty hop list. *)
Theorem GetProxyList_direct (fuel : nat) (server : string)
    (config : conf.Config) :
  1 ≤ fuel →
  (GetProxyList fuel server config = Some ([], ∅, None)
   ↔ conf.ServerConfig.Proxy (conf.Server_at config server) = "").
Proof.
  intros Hfuel. destruct fuel as [|fuel]; [lia|]. split.
  - intros (hops & Ht & Hl & _)%GetProxyList_trail.
    symmetry in Hl. apply (f_equal reverse) in Hl.
    rewrite reverse_involutive in Hl. subst hops. cbn [trail] in Ht.
    apply ctl_next_None.
    destruct (ctl_next config server false) as [[t' tun']|]; [|done].
    by destruct (trail fuel config t' tun').
  - intros Hp%ctl_next_None. unfold GetProxyList. simpl.
    pose proof (loop_body_ctl config (mkWalk server "" [] ∅)) as Hb.
    cbn [targetServer targetType] in Hb.
    change (isTunnel "") with false in Hb. rewrite Hp in Hb.
    by rewrite Hb.
Qed.

Lemma GetProxyList_direct_witness :
  GetProxyList 1 "ghost" cfg_dangling = Some ([], ∅, None)
  ↔ conf.ServerConfig.Proxy (conf.Server_at cfg_dangling "ghost") = "".
Proof. apply (GetProxyList_direct 1 "ghost" cfg_dangling). lia. Defined.

(** X3: the walk goes as far as the references lead: the hop that is
    dialled first either has a tunnel kind or has no entry with a proxy
    reference of its own. *)
Theorem GetProxyList_chain_complete (fuel : nat) (server : string)
    (config : conf.Config) (first : string) (rest : list string) m e :
  GetProxyList fuel server config = Some (first :: rest, m, e) →
  ∃ k, m !! first = Some k
       ∧ (isTunnel k = true
          ∨ conf.ServerConfig.Proxy (conf.Server_at config first) = "").
Proof.
  unfold GetProxyList.
  destruct (hop_walk fuel config _) as [[st|err]|] eqn:Hw; [|done..].
  rewrite reverse_slice_reverse. intros [= Hl <- <-].
  pose proof Hw as Hw'.
  apply (walk_chain_hop_walk server) in Hw as [(Hlast & _ & Hkind) Hbreak];
    [|apply walk_chain_init].
  apply (walk_inv_hop_walk server) in Hw' as (_ & _ & _ & Hmap);
    [|apply walk_inv_init].
  apply (f_equal reverse) in Hl. rewrite reverse_involutive, reverse_cons in Hl.
  assert (last (proxyList st) = Some first) as Hl1 by (by rewrite Hl, last_snoc).
  rewrite Hl1 in Hkind. destruct Hkind as (r & Hr & Hty).
  assert (targetServer st = first) as Htgt.
  { change (server :: proxyList st) with ([server] ++ proxyList st) in Hlast.
    rewrite Hl, app_assoc, last_snoc in Hlast. congruence. }
  exists (targetType st). split.
  - rewrite Hty. apply (Hmap (length (proxyList st) - 1) r first Hr).
    + rewrite last_lookup in Hl1.
      by replace (length (proxyList st) - 1) with (pred (length (proxyList st)))
        by lia.
    + intros j Hj Hlook. apply lookup_lt_Some in Hlook. lia.
  - pose proof (loop_body_ctl config st) as Hctl. rewrite Htgt in Hctl.
    destruct (isTunnel (targetType st)); [by left|]. right.
    apply ctl_next_None.
    destruct (ctl_next config first false) as [[t' tun']|]; [|done].
    destruct Hctl as (st' & Hn & _). congruence.
Qed.

Lemma GetProxyList_chain_complete_witness :
  ∃ k, (<["B" := "socks5"]> (<["A" := "ssh"]> ∅) : gmap string string) !! "B"
       = Some k
       ∧ (isTunnel k = true
          ∨ conf.ServerConfig.Proxy (conf.Server_at cfg_chain "B") = "").
Proof.
  apply (GetProxyList_chain_complete 3 "web" cfg_chain "B" ["A"] _ None).
  vm_compute. reflexivity.
Defined.

(** ** Frame properties of the connection methods *)

Lemma bind_Returns {W A B} (m : M W A) (k : A → M W B) s b s' :
  bind m k s = Returns b s' ↔ ∃ a s1, m s = Returns a s1 ∧ k a s1 = Returns b s'.
Proof.
  unfold bind. split.
  - destruct (m s) as [a s1| |]; [|done..]. intros H. by exists a, s1.
  - intros (a & s1 & -> & H). done.
Qed.

Lemma ext_Returns {W A} ev (op : W → A * W) (s : St W) a s' :
  ext ev op s = Returns a s' ↔
  a = (op (world s)).1
  ∧ s' = mkSt (self s) (op (world s)).2 (trace s ++ [ev]).
Proof.
  unfold ext. destruct (op (world s)) as [a' w]. simpl. split.
  - by intros [= <- <-].
  - by intros [-> ->].
Qed.

Section Frames.
Context {W : Type} (env : Env W).


Lemma keeps_self_ext {A} ev (op : W → A * W) : keeps_self (ext ev op).
Proof. intros s a s' H. apply ext_Returns in H as [_ ->]. reflexivity. Qed.

Lemma keeps_self_ret {A} (a : A) : keeps_self (W:=W) (ret a).
Proof. by intros s a' s' [= _ <-]. Qed.

Lemma keeps_self_emit ev : keeps_self (W:=W) (emit ev).
Proof. by intros s a' s' [= _ <-]. Qed.

Lemma keeps_self_get_self : keeps_self (W:=W) get_self.
Proof. by intros s a' s' [= _ <-]. Qed.

Lemma keeps_self_deref {A} (o : option A) : keeps_self (W:=W) (deref o).
Proof. destruct o; [apply keeps_self_ret | done]. Qed.

Lemma keeps_self_diverge {A} : keeps_self (W:=W) (A:=A) diverge.
Proof. done. Qed.
End Frames.

#[export] Hint Resolve keeps_self_ret keeps_self_get_self keeps_self_deref
  keeps_self_diverge keeps_self_ext keeps_self_emit : trace.


Section ClientFrames.
Context {W : Type} (env : Env W).





End ClientFrames.

(** ** Paths through the connection methods *)

Section ClientPaths.
Context {W : Type} (env : Env W).

(** X8: when [createSshAuth] returns an error, [CreateClient] returns it
    without dialling, also when auth methods came with the error (no agent
    being in use). *)
Theorem CreateClient_auth_error (fuel : nat) (s : St W)
    (auth : list xssh.AuthMethod) (e : error) (w1 : W) :
  conf.ServerConfig.SSHAgentUse
    (conf.Server_at (Conf (self s)) (Server (self s))) = false →
  conf.ServerConfig.AgentAuth
    (conf.Server_at (Conf (self s)) (Server (self s))) = false →
  createSshAuth env (Server (self s)) (world s) = (auth, Some e, w1) →
  CreateClient env fuel s
  = Returns (Some e)
      (mkSt (self s) w1
            (trace s ++ [EvCreateClient; EvCreateSshAuth (Server (self s))])).
Proof.
  intros Hagent1 Hagent2 Hauth.
  unfold CreateClient, createClientConfig. unfold bind, emit, get_self, ext, ret.
  simpl. rewrite Hagent1, Hagent2. simpl. rewrite Hauth. simpl.
  destruct (length auth =? 0); simpl; by rewrite <- app_assoc.
Qed.


(** X10: when the dialer of an http, https or socks5 hop cannot be made,
    the loop of [createClientOverProxy] returns that error at once, and no
    later hop is tried. *)
Theorem range_proxyList_tunnel_error (proxy : string) (rest : list string)
    (proxyType : gmap string string) (v : hopvars) (s : St W)
    (dialer : option Dialer) (e : error) (w1 : W) :
  let kind := default "" (proxyType !! proxy) in
  let proxyConf := conf.Proxy_at (Conf (self s)) proxy in
  isTunnel kind = true →
  (if (kind =? "socks5")%string
   then createProxyDialerSocks5 env proxyConf (world s)
   else createProxyDialerHttp env proxyConf (world s))
  = (dialer, Some e, w1) →
  range_proxyList env (proxy :: rest) proxyType v s
  = Returns (inr (Some e))
      (mkSt (self s) w1
            (trace s ++ [if (kind =? "socks5")%string
                         then EvProxyDialerSocks5 proxyConf
                         else EvProxyDialerHttp proxyConf])).
Proof.
  intros kind proxyConf Hkind Hdial. simpl. fold kind.
  unfold isTunnel in Hkind.
  unfold bind, get_self, ext, ret. simpl. fold proxyConf.
  destruct (String.eqb_spec kind "http") as [Hh|Hh].
  { rewrite Hh in *. simpl in *. by rewrite Hdial. }
  destruct (String.eqb_spec kind "https") as [Hs|Hs].
  { rewrite Hs in *. simpl in *. by rewrite Hdial. }
  simpl in *. rewrite Hkind in *. by rewrite Hdial.
Qed.

(** X11: with a client whose probe is answered (by no error or by
    "request failed"), [CreateSession] does not enter [CreateClient]: it
    asks that client for a session and returns what it gets, the receiver
    being unchanged. *)
Theorem CreateSession_reuses_live_client (fuel : nat) (s : St W)
    (client : xssh.Client) (probe : option error) (w1 : W) :
  Client (self s) = Some client →
  Client_SendRequest env client "keepalive@lssh.com" true (world s)
  = (probe, w1) →
  (probe = None ∨ ∃ e, probe = Some e ∧ Error e = "request failed") →
  CreateSession env fuel s
  = Returns (Client_NewSession env client w1).1
      (mkSt (self s) (Client_NewSession env client w1).2
            (trace s ++ [EvSendRequest client "keepalive@lssh.com" true;
                         EvNewSession client])).
Proof.
  intros Hc Hprobe Hlive.
  unfold CreateSession, CheckClientAlive.
  unfold bind, get_self, deref, ext, ret. rewrite Hc. simpl. rewrite Hc. simpl.
  rewrite Hprobe. simpl.
  destruct Hlive as [->|(e & -> & He)]; [|rewrite He]; simpl; rewrite Hc;
    simpl; destruct (Client_NewSession env client w1) as [[session err] w2];
    simpl; by rewrite <- app_assoc.
Qed.

(** X12: whenever [CreateSession] returns a session or a nil error, the
    last thing it did was to ask the client that the [Connect] now holds
    for a new session. *)
Theorem CreateSession_session_of_current_client (fuel : nat) (s : St W)
    (session : option xssh.Session) (err : option error) (s' : St W) :
  CreateSession env fuel s = Returns (session, err) s' →
  session ≠ None ∨ err = None →
  ∃ client, Client (self s') = Some client
            ∧ last (trace s') = Some (EvNewSession client).
Proof.
  unfold CreateSession.
  intros (c & s0 & [= <- <-] & H)%bind_Returns Hres.
  apply bind_Returns in H as (err1 & s1 & _ & H).
  destruct err1 as [e|].
  { injection H as <- <- <-. by destruct Hres. }
  apply bind_Returns in H as (clientErr & s2 & _ & H).
  apply bind_Returns in H as (err2 & s3 & _ & H).
  destruct err2 as [e|].
  { injection H as <- <- <-. by destruct Hres. }
  apply bind_Returns in H as (c3 & s3' & [= <- <-] & H).
  apply bind_Returns in H as (client & s4 & Hd & H).
  destruct (Client (self s3)) as [cl|] eqn:Hcl; [|done].
  injection Hd as <- <-.
  apply bind_Returns in H as ([sess e] & s5 & Hnew & H).
  apply ext_Returns in Hnew as [_ ->]. injection H as _ _ <-. simpl.
  exists cl. split; [done|]. by rewrite last_snoc.
Qed.
End ClientPaths.

(** ** Paths through the interactive terminal *)

Section TerminalPaths.
Context {W : Type} (env : Env W).

(** X13: when [terminal.MakeRaw] fails, [ConTerm] returns its error having
    done nothing else: no restore, no pty request. *)
Theorem ConTerm_raw_mode_error (session : xssh.Session) (s : St W)
    (state : option TermState) (e : error) (w1 : W) :
  terminal_MakeRaw env (os_Stdin_Fd env) (world s) = (state, Some e, w1) →
  ConTerm env session s
  = Returns (Some e)
      (mkSt (self s) w1 (trace s ++ [EvMakeRaw (os_Stdin_Fd env)])).
Proof.
  intros Hraw. unfold ConTerm. unfold bind at 1. unfold ext at 1.
  by rewrite Hraw.
Qed.

(** X14: when the pty request fails, [ConTerm] returns its error; no shell
    was started and nothing was waited for, and the terminal is
    restored. *)
Theorem ConTerm_pty_error (session : xssh.Session) (s : St W)
    (state : option TermState) (w1 w2 w3 w4 : W) (width height : nat)
    (term : string) (e : error) :
  terminal_MakeRaw env (os_Stdin_Fd env) (world s) = (state, None, w1) →
  terminal_GetSize env (os_Stdin_Fd env) w1 = (width, height, None, w2) →
  os_Getenv env "TERM" w2 = (term, w3) →
  Session_RequestPty env session term height width w3 = (Some e, w4) →
  ConTerm env session s
  = Returns (Some e)
      (mkSt (self s) (terminal_Restore env (os_Stdin_Fd env) state w4).2
            (trace s ++ [EvMakeRaw (os_Stdin_Fd env);
                         EvGetSize (os_Stdin_Fd env);
                         EvGetenv "TERM";
                         EvRequestPty session term height width;
                         EvRestore (os_Stdin_Fd env) state])).
Proof.
  intros Hraw Hsize Henv Hpty. unfold ConTerm, with_defer.
  unfold bind, ext, ret. simpl. rewrite Hraw. simpl. rewrite Hsize. simpl.
  rewrite Henv. simpl. rewrite Hpty. simpl.
  destruct (terminal_Restore env _ state w4) as [re w5]. simpl.
  by rewrite <- !app_assoc.
Qed.

(** X15: [ConTerm] always returns and leaves its receiver as it was. It
    starts the shell at most once: through [session.Start] and never
    [session.Shell] when [IsLocalRc] is set, and the other way round when
    it is not. *)
Theorem ConTerm_one_way_to_start (session : xssh.Session) (s : St W) :
  ∃ r s' evs,
    ConTerm env session s = Returns r s'
    ∧ self s' = self s
    ∧ trace s' = trace s ++ evs
    ∧ count (if IsLocalRc (self s) then is_Shell else is_Start) evs = 0
    ∧ count is_Shell evs + count is_Start evs ≤ 1.
Proof.
  unfold ConTerm, with_defer, runLocalRcShell.
  unfold bind, ext, ret, emit, get_self. simpl.
  destruct (terminal_MakeRaw env _ _) as [[state [e|]] w1]; simpl.
  { eexists _, _, _. split; [reflexivity|]. simpl. split; [done|].
    split; [reflexivity|]. simpl. destruct (IsLocalRc (self s)); simpl; (split; [reflexivity|lia]). }
  destruct (terminal_GetSize env _ _) as [[[width height] [e|]] w2]; simpl.
  { destruct (terminal_Restore env _ _ _) as [re w']. simpl.
    eexists _, _, _. split; [reflexivity|]. simpl. split; [done|].
    rewrite <- !app_assoc. split; [reflexivity|]. simpl.
    destruct (IsLocalRc (self s)); simpl; (split; [reflexivity|lia]). }
  destruct (os_Getenv env _ _) as [term w3]; simpl.
  destruct (Session_RequestPty env _ _ _ _ _) as [[e|] w4]; simpl.
  { destruct (terminal_Restore env _ _ _) as [re w']. simpl.
    eexists _, _, _. split; [reflexivity|]. simpl. split; [done|].
    rewrite <- !app_assoc. split; [reflexivity|]. simpl.
    destruct (IsLocalRc (self s)); simpl; (split; [reflexivity|lia]). }
  destruct (IsLocalRc (self s)) eqn:Hrc; simpl.
  - destruct (Session_Start env _ _ _) as [[e|] w5]; simpl.
    { destruct (terminal_Restore env _ _ _) as [re w']. simpl.
      eexists _, _, _. split; [reflexivity|]. simpl. split; [done|].
      rewrite <- !app_assoc. split; [reflexivity|]. simpl. split; [done|lia]. }
    destruct (negb _); simpl;
      destruct (Session_Wait env _ _) as [we w6]; simpl;
      destruct (terminal_Restore env _ _ _) as [re w']; simpl;
      (eexists _, _, _; split; [reflexivity|]; simpl; split; [done|];
       rewrite <- !app_assoc; split; [reflexivity|]; simpl; split; [done|lia]).
  - destruct (Session_Shell env _ _) as [[e|] w5]; simpl.
    { destruct (terminal_Restore env _ _ _) as [re w']. simpl.
      eexists _, _, _. split; [reflexivity|]. simpl. split; [done|].
      rewrite <- !app_assoc. split; [reflexivity|]. simpl. split; [done|lia]. }
    destruct (negb _); simpl;
      destruct (Session_Wait env _ _) as [we w6]; simpl;
      destruct (terminal_Restore env _ _ _) as [re w']; simpl;
      (eexists _, _, _; split; [reflexivity|]; simpl; split; [done|];
       rewrite <- !app_assoc; split; [reflexivity|]; simpl; split; [done|lia]).
Qed.
End TerminalPaths.

(** ** RunCmd *)

Section RunCmdProps.
Context {W : Type} (env : Env W) (senv : SessionEnv W).

Lemma count_calls_app p calls1 calls2 :
  count_calls p (calls1 ++ calls2) = count_calls p calls1 + count_calls p calls2.
Proof. induction calls1 as [|c calls1 IH]; simpl; [done|]. rewrite IH. lia. Qed.

(** What [setIsTerm] returns and does, case by case. *)
Lemma setIsTerm_cases (c : Connect) (preSession : xssh.Session) (w : W) :
  let '(session, err, w', calls) := setIsTerm env senv c preSession w in
  count_calls is_CallRun calls = 0
  ∧ ((err = None ∧ session = Some preSession
      ∧ count_calls is_CallClose calls = 0)
     ∨ (err ≠ None ∧ session = None ∧ IsTerm c = true
        ∧ count_calls is_CallClose calls = 1)).
Proof.
  unfold setIsTerm. destruct (IsTerm c); [|by split; [|left]].
  destruct (terminal_GetSize env _ w) as [[[width hight] [e|]] w1].
  { destruct (Session_Close senv preSession w1) as [ce w2]. by split; [|right]. }
  destruct (os_Getenv env "TERM" w1) as [term w2].
  destruct (Session_RequestPty env _ _ _ _ w2) as [[e|] w3].
  { destruct (Session_Close senv preSession w3) as [ce w4]. by split; [|right]. }
  by split; [|left].
Qed.

Ltac in_calls Hin :=
  repeat (apply elem_of_cons in Hin as [->|Hin]; [done|]);
  by apply elem_of_nil in Hin.

(** X16: [RunCmd] always returns, and the last thing it does is to close
    the session it was given. It runs at most one command, the tokens
    joined by single spaces, on that session, and a pty it requests has
    echo off. *)
Theorem RunCmd_closes_session (c : Connect) (session : xssh.Session)
    (command : list string) (w : W) :
  ∃ err w' calls,
    RunCmd env senv c session command w
    = (Done err, w', calls ++ [CallClose session])
    ∧ count_calls is_CallRun calls ≤ 1
    ∧ (∀ call, call ∈ calls →
         match call with
         | CallRequestPty s _ _ _ echo => s = session ∧ echo = 0
         | CallRun s cmd => s = session ∧ cmd = strings_Join command " "
         | CallClose s => s = session
         | _ => True
         end).
Proof.
  unfold RunCmd, setIsTerm. destruct (IsTerm c).
  - destruct (terminal_GetSize env _ w) as [[[width hight] [e|]] w1].
    { destruct (Session_Close senv session w1) as [ce w2].
      destruct (Session_Close senv session w2) as [ce' w3].
      eexists _, _, _. split; [reflexivity|]. split; [simpl; lia|].
      intros call Hin. in_calls Hin. }
    destruct (os_Getenv env "TERM" w1) as [term w2].
    destruct (Session_RequestPty env _ _ _ _ w2) as [[e|] w3].
    { destruct (Session_Close senv session w3) as [ce w4].
      destruct (Session_Close senv session w4) as [ce' w5].
      eexists _, _, _. split; [reflexivity|]. split; [simpl; lia|].
      intros call Hin. in_calls Hin. }
    destruct (Session_Run senv session _ w3) as [re w4].
    destruct (Session_Close senv session w4) as [ce w5].
    eexists _, _, _. split; [reflexivity|]. split; [simpl; lia|].
    intros call Hin. in_calls Hin.
  - destruct (Session_Run senv session _ w) as [re w4].
    destruct (Session_Close senv session w4) as [ce w5].
    eexists _, _, _. split; [reflexivity|]. split; [simpl; lia|].
    intros call Hin. in_calls Hin.
Qed.

(** X17: when [setIsTerm] fails, [RunCmd] returns its error without
    running the command, and the session is closed twice: by [setIsTerm]
    and by the deferred call. *)
Theorem RunCmd_tty_error (c : Connect) (session : xssh.Session)
    (command : list string) (w : W) (e : error) :
  (setIsTerm env senv c session w).1.1.2 = Some e →
  ∃ w' calls,
    RunCmd env senv c session command w = (Done (Some e), w', calls)
    ∧ count_calls is_CallRun calls = 0
    ∧ count_calls is_CallClose calls = 2.
Proof.
  unfold RunCmd.
  pose proof (setIsTerm_cases c session w) as Hcases.
  destruct (setIsTerm env senv c session w) as [[[session' err] w1] calls1].
  simpl. intros ->.
  destruct Hcases as [Hrun [(Herr & _)|(_ & _ & _ & Hclose)]]; [done|].
  destruct (Session_Close senv session w1) as [ce w2].
  eexists _, _. split; [reflexivity|].
  rewrite !count_calls_app, Hclose, Hrun. simpl. split; lia.
Qed.

(** X18: when [setIsTerm] succeeds, [RunCmd] runs the joined command once,
    right after the calls of [setIsTerm], returns the error of
    [session.Run], and closes the session once, at the end. *)
Theorem RunCmd_runs_joined_command (c : Connect) (session : xssh.Session)
    (command : list string) (w : W) :
  (setIsTerm env senv c session w).1.1.2 = None →
  let w1 := (setIsTerm env senv c session w).1.2 in
  let calls1 := (setIsTerm env senv c session w).2 in
  let execCmd := strings_Join command " " in
  RunCmd env senv c session command w
  = (Done (Session_Run senv session execCmd w1).1,
     (Session_Close senv session (Session_Run senv session execCmd w1).2).2,
     calls1 ++ [CallRun session execCmd; CallClose session])
  ∧ count_calls is_CallClose calls1 = 0.
Proof.
  unfold RunCmd.
  pose proof (setIsTerm_cases c session w) as Hcases.
  destruct (setIsTerm env senv c session w) as [[[session' err] w1] calls1].
  simpl. intros ->.
  destruct Hcases as [Hrun [(_ & -> & Hclose)|(Herr & _)]]; [|done].
  destruct (Session_Run senv session _ w1) as [re w2]. simpl.
  destruct (Session_Close senv session w2) as [ce w3]. simpl.
  by rewrite <- app_assoc.
Qed.
End RunCmdProps.

(** ** More on the output pump *)

Lemma ReadBytes_line buf line rest err :
  ReadBytes newline buf = (line, rest, err) → buf ≠ [] → is_line line.
Proof.
  revert line rest err.
  induction buf as [|b buf IH]; intros line rest err; simpl; [done|].
  intros H _. destruct (Byte.eqb b newline) eqn:Hb.
  - injection H as <- _ _. split; [done|]. simpl. intros i Hi. lia.
  - destruct (ReadBytes newline buf) as [[line' rest'] err'] eqn:Hr.
    injection H as <- _ _. split; [done|].
    intros [|i] Hi; simpl.
    + intros [= ->]. by rewrite (Byte.byte_dec_lb eq_refl) in Hb.
    + destruct buf as [|b' buf'].
      * simpl in Hr. injection Hr as <- _ _. simpl in Hi. lia.
      * destruct (IH _ _ _ eq_refl) as [_ Hl]; [done|].
        apply Hl. simpl in Hi. lia.
Qed.

Lemma last_check_loop_lines n : ∀ buf sent dropped,
  last_check_loop n buf = (sent, dropped) → Forall is_line sent.
Proof.
  induction n as [|n IH]; intros buf sent dropped; simpl.
  { by intros [= <- _]. }
  destruct (ReadBytes newline buf) as [[line rest] err] eqn:Hr.
  case_bool_decide as Herr; [|by intros [= <- _]].
  destruct (last_check_loop n rest) as [sent' dropped'] eqn:Hl.
  intros [= <- _]. constructor; [|by eapply IH].
  apply (ReadBytes_line _ _ _ _ Hr).
  intros ->. simpl in Hr. injection Hr as _ _ <-. done.
Qed.

Lemma step_lines p t :
  Forall is_line (outputChan p) → Forall is_line (outputChan (step p t)).
Proof.
  intros Hp. destruct t; simpl; [done| |by destruct (at_ p)|].
  - by destruct (to_write p).
  - destruct (at_ p); [| |done].
    + destruct (0 <? length (outputBuf p)) eqn:Hlen; [|done].
      destruct (ReadBytes newline (outputBuf p)) as [[line rest] err] eqn:Hr.
      simpl. apply Forall_app. split; [done|]. constructor; [|done].
      apply (ReadBytes_line _ _ _ _ Hr). intros Hb. by rewrite Hb in Hlen.
    + destruct (isExit p); [|done]. unfold last_check.
      destruct (0 <? length (outputBuf p)); simpl.
      * destruct (ReadBytes newline (outputBuf p)) as [[line rest] err] eqn:Hr.
        case_bool_decide as Herr; simpl.
        -- destruct (last_check_loop _ rest) as [sent dropped] eqn:Hl. simpl.
           apply Forall_app. split; [done|]. constructor.
           ++ apply (ReadBytes_line _ _ _ _ Hr). intros Hb. rewrite Hb in Hr.
              simpl in Hr. injection Hr as _ _ <-. done.
           ++ by eapply last_check_loop_lines.
        -- by rewrite app_nil_r.
      * by rewrite app_nil_r.
Qed.

(** X20: every chunk that [RunCmdWithOutput] sends is a line: it is not
    empty and holds no line terminator before its last byte. *)
Theorem RunCmdWithOutput_sends_lines (output : list byte) (schedule : list tick) :
  Forall is_line (outputChan (RunCmdWithOutput output schedule)).
Proof.
  unfold RunCmdWithOutput.
  assert (Forall is_line (outputChan (mkPump [] [] output false AtLen)))
    as Hinit by constructor.
  revert Hinit. generalize (mkPump [] [] output false AtLen).
  induction schedule as [|t schedule IH]; intros p Hp; simpl; [done|].
  apply IH. by apply step_lines.
Qed.

(** X19: at every moment of every interleaving, what has been sent on the
    output channel is, in order, a prefix of the output of the command. *)
Theorem RunCmdWithOutput_sends_in_order (output : list byte)
    (schedule : list tick) :
  concat (outputChan (RunCmdWithOutput output schedule)) `prefix_of` output.
Proof.
  destruct (pump_inv_run output schedule) as (lost & Hout & _).
  eexists. exact Hout.
Qed.

Lemma step_Returned p : at_ p = Returned → step p Step = p.
Proof. intros H. simpl. by rewrite H. Qed.

Lemma steps_Returned n p : at_ p = Returned → foldl step p (repeat Step n) = p.
Proof.
  intros H. induction n as [|n IH]; [done|]. cbn [repeat foldl].
  by rewrite step_Returned.
Qed.

Lemma step_empty_AtLen chan :
  step (mkPump [] chan [] true AtLen) Step = mkPump [] chan [] true AtSelect.
Proof. reflexivity. Qed.

Lemma step_exit_AtSelect chan :
  step (mkPump [] chan [] true AtSelect) Step = mkPump [] chan [] true Returned.
Proof. simpl. by rewrite app_nil_r. Qed.

Lemma step_read_AtLen b buf chan :
  step (mkPump (b :: buf) chan [] true AtLen) Step
  = mkPump (ReadBytes newline (b :: buf)).1.2
           (chan ++ [(ReadBytes newline (b :: buf)).1.1]) [] true AtLen.
Proof.
  cbn [step at_ outputBuf length Nat.ltb Nat.leb outputChan to_write isExit].
  by destruct (ReadBytes newline (b :: buf)) as [[line rest] err].
Qed.

(** With the command finished, the loop sends all that is in the buffer. *)
Lemma steps_drain k : ∀ buf chan,
  length buf ≤ k →
  ∃ chan',
    foldl step (mkPump buf chan [] true AtLen) (repeat Step (k + 2))
    = mkPump [] chan' [] true Returned
    ∧ concat chan' = concat chan ++ buf.
Proof.
  induction k as [|k IH]; intros buf chan Hlen.
  - destruct buf; [|simpl in Hlen; lia]. exists chan.
    cbn [Nat.add repeat foldl].
    rewrite step_empty_AtLen, step_exit_AtSelect. by rewrite app_nil_r.
  - replace (S k + 2) with (S (k + 2)) by lia. cbn [repeat foldl].
    destruct buf as [|b buf].
    + exists chan. replace (k + 2) with (S (k + 1)) by lia. cbn [repeat foldl].
      rewrite step_empty_AtLen, step_exit_AtSelect.
      rewrite steps_Returned by done. by rewrite app_nil_r.
    + rewrite step_read_AtLen.
      destruct (ReadBytes newline (b :: buf)) as [[line rest] err] eqn:Hr.
      apply ReadBytes_split in Hr as (Hbuf & Hok & Heof). simpl.
      assert (line ≠ []) as Hline.
      { destruct err as [e|]; [|by apply Hok].
        destruct Heof as (_ & -> & _); [done|].
        rewrite app_nil_r in Hbuf. by rewrite <- Hbuf. }
      destruct (IH rest (chan ++ [line])) as (chan' & Hrun & Hcat).
      { apply (f_equal length) in Hbuf. rewrite length_app in Hbuf.
        simpl in *. destruct line; [done|]. simpl in Hbuf. lia. }
      exists chan'. split; [exact Hrun|].
      rewrite Hcat, concat_app, Hbuf. simpl. by rewrite app_nil_r, <- app_assoc.
Qed.

(** X22: when the command has written all its output and returned before
    the loop looks at the buffer, everything is sent, with or without a
    final line terminator. *)
Theorem RunCmdWithOutput_finished_command (output : list byte) (n : nat) :
  length output ≤ n →
  at_ (RunCmdWithOutput output ([Append n; Exit] ++ repeat Step (n + 2)))
  = Returned
  ∧ concat (outputChan
              (RunCmdWithOutput output ([Append n; Exit] ++ repeat Step (n + 2))))
    = output.
Proof.
  intros Hn. unfold RunCmdWithOutput. rewrite foldl_app.
  assert (foldl step (mkPump [] [] output false AtLen) [Append n; Exit]
          = mkPump output [] [] true AtLen) as ->.
  { simpl. by rewrite take_ge, drop_ge by done. }
  destruct (steps_drain n output []) as (chan' & -> & Hcat); [done|].
  by simpl.
Qed.

Lemma RunCmdWithOutput_finished_command_witness :
  length (list_byte_of_string "hi") ≤ 2
  ∧ at_ (RunCmdWithOutput (list_byte_of_string "hi")
           ([Append 2; Exit] ++ repeat Step (2 + 2)))
    = Returned
  ∧ concat (outputChan
              (RunCmdWithOutput (list_byte_of_string "hi")
                 ([Append 2; Exit] ++ repeat Step (2 + 2))))
    = list_byte_of_string "hi".
Proof.
  split; [simpl; lia|].
  apply (RunCmdWithOutput_finished_command (list_byte_of_string "hi") 2).
  simpl. lia.
Defined.

(** ** More on the host task *)

Section HostTask.
Context {W : Type} (env : Env W).

Lemma createClientConfig_no_close server :
  appends_no is_CloseOutputChan (createClientConfig env server).
Proof. unfold createClientConfig. repeat trace_step. Qed.

Lemma range_proxyList_no_close proxyList : ∀ proxyType v,
  appends_no is_CloseOutputChan (range_proxyList env proxyList proxyType v).
Proof.
  induction proxyList as [|proxy rest IH]; intros proxyType v; simpl.
  - auto with trace.
  - repeat first [apply createClientConfig_no_close | apply IH | trace_step].
Qed.

Lemma createClientOverProxy_no_close fuel serverConf sshConf :
  appends_no is_CloseOutputChan
    (createClientOverProxy env fuel serverConf sshConf).
Proof.
  unfold createClientOverProxy.
  repeat first [apply range_proxyList_no_close | trace_step].
Qed.

Lemma CreateClient_no_close fuel :
  appends_no is_CloseOutputChan (CreateClient env fuel).
Proof.
  unfold CreateClient.
  repeat first [apply createClientConfig_no_close
               | apply createClientOverProxy_no_close | trace_step].
Qed.

Lemma CreateSession_no_close fuel :
  appends_no is_CloseOutputChan (CreateSession env fuel).
Proof.
  unfold CreateSession, CheckClientAlive.
  repeat first [apply CreateClient_no_close | trace_step].
Qed.

(** X24: every run of [cmdRun] that returns has closed the output channel
    exactly once, as its last action. *)
Theorem cmdRun_closes_output_channel (fuel : nat) (r : Run)
    (serverListIndex : nat) (s s' : St W) :
  cmdRun env fuel r serverListIndex s = Returns tt s' →
  ∃ evs, trace s' = trace s ++ evs ++ [EvCloseOutputChan]
         ∧ count is_CloseOutputChan evs = 0.
Proof.
  unfold cmdRun.
  intros ([session err] & s1 & Hcs & H)%bind_Returns.
  destruct (CreateSession_no_close fuel _ _ _ Hcs) as (evs0 & Ht0 & Hc0).
  apply bind_Returns in H as (conn & s1' & [= <- <-] & H).
  destruct err as [e|].
  - apply bind_Returns in H as ([] & s2 & [= <-] & [= <-]). simpl.
    exists (evs0 ++ [EvStderr (Server (self s1)) e]).
    rewrite Ht0, <- !app_assoc. split; [done|].
    rewrite count_app, Hc0. done.
  - apply bind_Returns in H as ([] & s2 & Hx11 & H).
    assert (appends_no is_CloseOutputChan
              (if IsX11 r || X11 (self s1)
               then let* s := deref session in
                    ext (EvX11Forwarder s) (Connect_X11Forwarder env s)
               else ret tt)) as Hax by repeat trace_step.
    destruct (Hax _ _ _ Hx11) as (evs1 & Ht1 & Hc1).
    apply bind_Returns in H as ([] & s3 & Hstdin & H).
    assert (appends_no is_CloseOutputChan
              (if (0 <? length (StdinData r))%nat
               then let* s := deref session in emit (EvSetStdin s (StdinData r))
               else if Run_IsParallel r || (length (ServerList r) =? 1)%nat
                    then let* s := deref session in
                         let* (writer, _) :=
                           ext (EvStdinPipe s) (Session_StdinPipe env s) in
                         emit (EvSendInputWriter writer)
                    else ret tt)) as Has by repeat trace_step.
    destruct (Has _ _ _ Hstdin) as (evs2 & Ht2 & Hc2).
    apply bind_Returns in H as (sess & s4 & Hd & H).
    destruct session as [sess'|]; [|done]. injection Hd as <- <-.
    apply bind_Returns in H as ([] & s5 & [= <-] & [= <-]). simpl.
    exists (evs0 ++ evs1 ++ evs2 ++ [EvRunCmdWithOutput sess' (ExecCmd r)]).
    rewrite Ht2, Ht1, Ht0, <- !app_assoc. split; [done|].
    rewrite !count_app, Hc0, Hc1, Hc2. done.
Qed.

(** X25: when the session cannot be created, [cmdRun] reports the error
    with the name of the host, closes the output channel and does nothing
    else: no X11 forwarding, no input handle, no command. *)
Theorem cmdRun_session_error (fuel : nat) (r : Run) (serverListIndex : nat)
    (s s1 : St W) (session : option xssh.Session) (e : error) :
  CreateSession env fuel s = Returns (session, Some e) s1 →
  cmdRun env fuel r serverListIndex s
  = Returns tt
      (mkSt (self s1) (world s1)
            (trace s1 ++ [EvStderr (Server (self s1)) e; EvCloseOutputChan])).
Proof.
  intros Hcs. unfold cmdRun. unfold bind at 1. rewrite Hcs.
  unfold bind, get_self, emit. simpl. by rewrite <- app_assoc.
Qed.
End HostTask.

(** ** The reversal loop *)

(** X6: the two-index swap loop at the end of [GetProxyList] keeps the
    length of the slice and moves the element at [i] to [len-1-i]. *)
Theorem reverse_slice_lookup (l : list string) (i : nat) :
  i < length l →
  length (reverse_slice l) = length l
  ∧ reverse_slice l !! i = l !! (length l - 1 - i).
Proof.
  intros Hi. rewrite reverse_slice_reverse, length_reverse. split; [done|].
  rewrite reverse_lookup by done. f_equal. lia.
Qed.

Lemma reverse_slice_lookup_witness :
  length (reverse_slice ["A"; "B"; "C"]) = length ["A"; "B"; "C"]
  ∧ reverse_slice ["A"; "B"; "C"] !! 0
    = ["A"; "B"; "C"] !! (length ["A"; "B"; "C"] - 1 - 0).
Proof. apply (reverse_slice_lookup ["A"; "B"; "C"] 0). simpl. lia. Defined.

(** ** The further properties at sample worlds *)


Lemma CreateClient_auth_error_witness :
  CreateClient env_no_key 1 st_fresh
  = Returns (Some no_key)
      (mkSt (self st_fresh) tt
            (trace st_fresh ++ [EvCreateClient; EvCreateSshAuth (Server (self st_fresh))])).
Proof.
  apply (CreateClient_auth_error env_no_key 1 st_fresh [xssh.AuthId 0] no_key tt);
    reflexivity.
Defined.


Lemma range_proxyList_tunnel_error_witness :
  range_proxyList env_socks_down ["B"; "A"]
    (<["B" := "socks5"]> (<["A" := "ssh"]> ∅)) (mkHopvars None None None)
    (mkSt (conn_to "web" cfg_chain None) tt [])
  = Returns (inr (Some socks_down))
      (mkSt (conn_to "web" cfg_chain None) tt
            [EvProxyDialerSocks5 (conf.ProxyConfig.mk "10.0.0.9" "1080" "" "")]).
Proof.
  exact (range_proxyList_tunnel_error env_socks_down "B" ["A"]
           (<["B" := "socks5"]> (<["A" := "ssh"]> ∅)) (mkHopvars None None None)
           (mkSt (conn_to "web" cfg_chain None) tt []) None socks_down tt
           eq_refl eq_refl).
Defined.

Lemma CreateSession_reuses_live_client_witness :
  CreateSession env_unsupported 1 st_connected
  = Returns (Some (xssh.SessionId 0), None)
      (mkSt (self st_connected) tt
            [EvSendRequest (xssh.ClientId 7) "keepalive@lssh.com" true;
             EvNewSession (xssh.ClientId 7)]).
Proof.
  apply (CreateSession_reuses_live_client env_unsupported 1 st_connected
           (xssh.ClientId 7) (Some (errors_New "request failed")) tt).
  - reflexivity.
  - reflexivity.
  - right. exists (errors_New "request failed"). split; reflexivity.
Defined.

Lemma CreateSession_session_of_current_client_witness :
  ∃ client,
    Client (self (mkSt (self st_connected) tt
                       [EvSendRequest (xssh.ClientId 7) "keepalive@lssh.com" true;
                        EvNewSession (xssh.ClientId 7)])) = Some client
    ∧ last [EvSendRequest (xssh.ClientId 7) "keepalive@lssh.com" true;
            EvNewSession (xssh.ClientId 7)]
      = Some (EvNewSession client).
Proof.
  apply (CreateSession_session_of_current_client env_unsupported 1 st_connected
           (Some (xssh.SessionId 0)) None
           (mkSt (self st_connected) tt
                 [EvSendRequest (xssh.ClientId 7) "keepalive@lssh.com" true;
                  EvNewSession (xssh.ClientId 7)])).
  - reflexivity.
  - right. reflexivity.
Defined.

Lemma ConTerm_raw_mode_error_witness :
  ConTerm env_not_a_tty (xssh.SessionId 0) st_connected
  = Returns (Some not_a_tty)
      (mkSt (self st_connected) tt (trace st_connected ++ [EvMakeRaw 0])).
Proof.
  apply (ConTerm_raw_mode_error env_not_a_tty (xssh.SessionId 0) st_connected
           None not_a_tty tt).
  reflexivity.
Defined.

Lemma ConTerm_pty_error_witness :
  ConTerm env_no_pty (xssh.SessionId 0) st_connected
  = Returns (Some (errors_New "ssh: pty-req failed"))
      (mkSt (self st_connected) tt
            (trace st_connected
             ++ [EvMakeRaw 0; EvGetSize 0; EvGetenv "TERM";
                 EvRequestPty (xssh.SessionId 0) "xterm" 24 80;
                 EvRestore 0 (Some (TermStateId 0))])).
Proof.
  apply (ConTerm_pty_error env_no_pty (xssh.SessionId 0) st_connected
           (Some (TermStateId 0)) tt tt tt tt 80 24 "xterm"
           (errors_New "ssh: pty-req failed")); reflexivity.
Defined.

Lemma RunCmd_tty_error_witness :
  ∃ w' calls,
    RunCmd env_no_pty (sample_senv None) conn_tty (xssh.SessionId 0)
           ["ls"; "-l"] tt
    = (Done (Some (errors_New "ssh: pty-req failed")), w', calls)
    ∧ count_calls is_CallRun calls = 0
    ∧ count_calls is_CallClose calls = 2.
Proof.
  apply (RunCmd_tty_error env_no_pty (sample_senv None) conn_tty
           (xssh.SessionId 0) ["ls"; "-l"] tt).
  reflexivity.
Defined.

Lemma RunCmd_runs_joined_command_witness :
  RunCmd env_hop_down (sample_senv None) conn_tty (xssh.SessionId 0)
         ["ls"; "-l"] tt
  = (Done None, tt,
     [CallGetSize 0; CallGetenv "TERM";
      CallRequestPty (xssh.SessionId 0) "xterm" 24 80 0]
     ++ [CallRun (xssh.SessionId 0) "ls -l"; CallClose (xssh.SessionId 0)])
  ∧ count_calls is_CallClose
      [CallGetSize 0; CallGetenv "TERM";
       CallRequestPty (xssh.SessionId 0) "xterm" 24 80 0] = 0.
Proof.
  apply (RunCmd_runs_joined_command env_hop_down (sample_senv None) conn_tty
           (xssh.SessionId 0) ["ls"; "-l"] tt).
  reflexivity.
Defined.

Lemma RunCmdWithOutput_terminated_output_witness :
  at_ (RunCmdWithOutput (list_byte_of_string "hi" ++ [newline])
                        [Step; Append 3; Exit; Step]) = Returned
  ∧ concat (outputChan (RunCmdWithOutput (list_byte_of_string "hi" ++ [newline])
                                         [Step; Append 3; Exit; Step]))
    = list_byte_of_string "hi" ++ [newline].
Proof.
  split; [reflexivity|].
  apply (RunCmdWithOutput_terminated_output (list_byte_of_string "hi")
           [Step; Append 3; Exit; Step]).
  reflexivity.
Defined.

Lemma cmdRun_publishes_witness :
  ∃ evs, trace st_db_done = trace st_fresh ++ evs
         ∧ length (published evs)
           = if is_nil (None : option error) && broadcast_active run_one
             then 1 else 0.
Proof.
  apply (cmdRun_publishes env_hop_down 1 run_one 0 st_fresh st_db_done
           (mkSt (conn_to "db" cfg_direct (Some (xssh.ClientId 2))) tt
                 [EvCreateClient; EvCreateSshAuth "db";
                  EvDial "tcp" "10.0.0.3:22" admin_conf;
                  EvSendRequest (xssh.ClientId 2) "keepalive@lssh.com" true;
                  EvNewSession (xssh.ClientId 2)])
           (Some (xssh.SessionId 0)) None); reflexivity.
Defined.

Lemma cmdRun_closes_output_channel_witness :
  ∃ evs, trace st_db_done = trace st_fresh ++ evs ++ [EvCloseOutputChan]
         ∧ count is_CloseOutputChan evs = 0.
Proof.
  apply (cmdRun_closes_output_channel env_hop_down 1 run_one 0 st_fresh st_db_done).
  reflexivity.
Defined.

Lemma cmdRun_session_error_witness :
  cmdRun env_unreachable 1 run_one 0 st_fresh
  = Returns tt
      (mkSt (conn_to "db" cfg_direct None) tt
            ([EvCreateClient; EvCreateSshAuth "db";
              EvDial "tcp" "10.0.0.3:22" admin_conf]
             ++ [EvStderr "db" unreachable; EvCloseOutputChan])).
Proof.
  apply (cmdRun_session_error env_unreachable 1 run_one 0 st_fresh
           (mkSt (conn_to "db" cfg_direct None) tt
                 [EvCreateClient; EvCreateSshAuth "db";
                  EvDial "tcp" "10.0.0.3:22" admin_conf])
           None unreachable).
  reflexivity.
Defined.
